(** * Electricity billing: the fixed-rate and the tiered (block) tariff calculators

  A shallow embedding of [fixed_rate.py] and [tiered_tariff_calculator.py].
  Python's [float] is IEEE 754 binary64, which is what Rocq's primitive
  [float] is: arithmetic and comparisons below are the kernel's, and their
  specification is [SpecFloat] through [Prim2SF].  Numeric arguments are
  taken as floats, as the annotations of the tiered module have them; an
  [int] literal of the tests stands for the float of the same value, on
  which [float(...)] is the identity.  A raised exception is a value of
  [result]. *)

From Stdlib Require Import ZArith QArith Qabs List String Ascii Bool Lia Floats DecimalString.
Import ListNotations.

Set Warnings "-inexact-float,-register-all".

(** ** Python values and built-ins *)

Module Py.

(** The exceptions the two modules let escape. *)
Inductive exn : Type :=
| ValueError (msg : string)
| TypeError (msg : string)
| OverflowError (msg : string)
| JSONDecodeError (msg : string).

Inductive result (A : Type) : Type :=
| Ok (a : A)
| Raise (e : exn).

Arguments Ok {A} a.
Arguments Raise {A} e.

Definition bind {A B : Type} (r : result A) (k : A -> result B) : result B :=
  match r with
  | Ok a => k a
  | Raise e => Raise e
  end.

(** [min(a, b)] keeps its first argument unless the second is smaller. *)
Definition min (a b : float) : float :=
  if (b <? a)%float then b else a.

(** [sum(xs)]: from [0], left to right.  (CPython from 3.12 on carries a
    compensation term through a sum of floats, which can change its last
    bits; the statements below hold as they are for either sum, the
    examples having sums that are exact.) *)
Definition sum (xs : list float) : float :=
  fold_left PrimFloat.add xs 0%float.

(** *** [str]

    A [str] is held as the bytes of its UTF-8 encoding.  The separators the
    code splits on are ASCII, and a byte of an ASCII character never occurs
    inside the encoding of another one. *)

Definition code (c : ascii) : N := N_of_ascii c.

(** [str.isspace] on one code point: the ASCII ones, ... *)
Definition space1 (c : ascii) : bool :=
  let n := code c in
  ((9 <=? n) && (n <=? 13) || (28 <=? n) && (n <=? 32))%N.

(** ... U+0085 and U+00A0, ... *)
Definition space2 (c1 c2 : ascii) : bool :=
  ((code c1 =? 194) && ((code c2 =? 133) || (code c2 =? 160)))%N.

(** ... and U+1680, U+2000 to U+200A, U+2028, U+2029, U+202F, U+205F and
    U+3000. *)
Definition space3 (c1 c2 c3 : ascii) : bool :=
  let '(a, b, c) := (code c1, code c2, code c3) in
  ((a =? 225) && (b =? 154) && (c =? 128)
   || (a =? 226) && (b =? 128)
      && ((128 <=? c) && (c <=? 138) || (c =? 168) || (c =? 169) || (c =? 175))
   || (a =? 226) && (b =? 129) && (c =? 159)
   || (a =? 227) && (b =? 128) && (c =? 128))%N.

(** Drops the white space a string starts with; [fwd] tells whether the
    bytes come in reading order or reversed. *)
Fixpoint drop_space (fwd : bool) (s : string) : string :=
  match s with
  | EmptyString => s
  | String c1 s1 =>
      if space1 c1 then drop_space fwd s1
      else
        match s1 with
        | EmptyString => s
        | String c2 s2 =>
            if (if fwd then space2 c1 c2 else space2 c2 c1) then drop_space fwd s2
            else
              match s2 with
              | EmptyString => s
              | String c3 s3 =>
                  if (if fwd then space3 c1 c2 c3 else space3 c3 c2 c1)
                  then drop_space fwd s3
                  else s
              end
        end
  end.

Definition rev (s : string) : string :=
  string_of_list_ascii (List.rev (list_ascii_of_string s)).

(** [s.strip()] *)
Definition strip (s : string) : string :=
  rev (drop_space false (rev (drop_space true s))).

(** [s.split(sep)] for a separator of one ASCII character. *)
Fixpoint split (sep : ascii) (s : string) : list string :=
  match s with
  | EmptyString => [EmptyString]
  | String c s' =>
      if Ascii.eqb c sep then EmptyString :: split sep s'
      else
        match split sep s' with
        | part :: parts => String c part :: parts
        | [] => [String c EmptyString]
        end
  end.

(** [s.startswith(p)] *)
Definition startswith (s p : string) : bool := String.prefix p s.

(** [sep.join(parts)] *)
Definition join (sep : string) (parts : list string) : string :=
  String.concat sep parts.

(** The code points of a string, each as a string: a byte [10xxxxxx]
    continues the character before it. *)
Definition continuation (c : ascii) : bool :=
  ((128 <=? code c) && (code c <? 192))%N.

Fixpoint chars (s : string) : list string :=
  match s with
  | EmptyString => []
  | String c s' =>
      match s' with
      | String c' _ =>
          if continuation c'
          then match chars s' with
               | ch :: rest => String c ch :: rest
               | [] => [String c EmptyString]
               end
          else String c EmptyString :: chars s'
      | EmptyString => [String c EmptyString]
      end
  end.

(** [str(n)] for an [int]. *)
Definition str_of_int (n : Z) : string :=
  NilZero.string_of_int (Z.to_int n).

(** *** Fixed-point formatting of a float: [f"{x:.3f}"] and [f"{x:,.2f}"]

    The digits are those of the exact binary value, rounded to the
    requested number of decimals, ties to even. *)

Definition round_half_even (num den : Z) : Z :=
  let q := (num / den)%Z in
  match (2 * (num mod den) ?= den)%Z with
  | Lt => q
  | Gt => (q + 1)%Z
  | Eq => if Z.even q then q else (q + 1)%Z
  end.

(** [|x| * 10 ^ decimals], rounded to an integer, for [x = m * 2 ^ e]. *)
Definition scaled (decimals : nat) (m : positive) (e : Z) : Z :=
  let num := (Z.pos m * 10 ^ Z.of_nat decimals)%Z in
  match e with
  | Zneg p => round_half_even num (2 ^ Z.pos p)
  | _ => (num * 2 ^ e)%Z
  end.

Definition digits_of (n : Z) : string :=
  NilZero.string_of_uint (N.to_uint (Z.to_N n)).

Fixpoint zeros (n : nat) : string :=
  match n with
  | O => EmptyString
  | S n' => String "0" (zeros n')
  end.

(** The last [decimals] digits of [n], zeros in front where it is short. *)
Definition fraction (decimals : nat) (n : Z) : string :=
  let ds := digits_of (n mod 10 ^ Z.of_nat decimals) in
  (zeros (decimals - String.length ds) ++ ds)%string.

(** A comma after every third digit, over the digits in reverse. *)
Fixpoint group3 (r : string) : string :=
  match r with
  | String a (String b (String c ((String _ _) as more))) =>
      String a (String b (String c (String "," (group3 more))))
  | _ => r
  end.

Definition grouped (ds : string) : string := rev (group3 (rev ds)).

(** [format(x, ".<decimals>f")], or [",.<decimals>f"] when [comma]. *)
Definition format_f (comma : bool) (decimals : nat) (x : float) : string :=
  let body (n : Z) :=
    let ip := digits_of (n / 10 ^ Z.of_nat decimals) in
    ((if comma then grouped ip else ip)
     ++ match decimals with
        | O => EmptyString
        | _ => String "." (fraction decimals n)
        end)%string in
  let sign (s : bool) := if s then "-"%string else EmptyString in
  match Prim2SF x with
  | S754_nan => "nan"%string
  | S754_infinity s => (sign s ++ "inf")%string
  | S754_zero s => (sign s ++ body 0%Z)%string
  | S754_finite s m e => (sign s ++ body (scaled decimals m e))%string
  end.

(** *** [float(n)] for an [int]: the nearest float, ties to even, and an
    [OverflowError] past the largest one. *)
Definition float_of_int (n : Z) : result float :=
  let x := SF2Prim (binary_normalize prec emax n 0 false) in
  if is_infinity x
  then Raise (OverflowError "int too large to convert to float")
  else Ok x.

End Py.

Notation "x <- r ;; k" := (Py.bind r (fun x => k))
(at level 61, r at next level, right associativity).

Import Py.

(** ** fixed_rate.py *)

Module FixedRate.

Definition fixed_rate_bill (total_usage rate fixed_fee : float) : result float :=
  if ((total_usage <? 0) || (rate <? 0) || (fixed_fee <? 0))%float
  then Raise (ValueError "Inputs must be non-negative.")
  else Ok (total_usage * rate + fixed_fee)%float.

End FixedRate.

(** ** The values [json.loads] returns *)

Module Json.

Open Scope string_scope.

Inductive json : Type :=
| JNull
| JBool (b : bool)
| JInt (n : Z)
| JFloat (x : float)
| JStr (s : string)
| JArr (items : list json)
| JObj (members : list (string * json)).

(** [type(v).__name__] *)
Definition type_name (v : json) : string :=
  match v with
  | JNull => "NoneType"
  | JBool _ => "bool"
  | JInt _ => "int"
  | JFloat _ => "float"
  | JStr _ => "str"
  | JArr _ => "list"
  | JObj _ => "dict"
  end.

(** [iter(v)]: the items of a list, the characters of a string, the keys of
    a dict; nothing else can be iterated. *)
Definition iterate (v : json) : option (list json) :=
  match v with
  | JArr items => Some items
  | JStr s => Some (map JStr (chars s))
  | JObj members => Some (map (fun kv => JStr (fst kv)) members)
  | _ => None
  end.

(** [a, b = v] *)
Definition unpack2 (v : json) : result (json * json) :=
  match iterate v with
  | None =>
      Raise (TypeError ("cannot unpack non-iterable " ++ type_name v ++ " object"))
  | Some [a; b] => Ok (a, b)
  | Some (_ :: _ :: _ :: _) =>
      Raise (ValueError "too many values to unpack (expected 2)")
  | Some few =>
      Raise (ValueError ("not enough values to unpack (expected 2, got "
                         ++ str_of_int (Z.of_nat (List.length few)) ++ ")"))
  end.

End Json.

Import Json.

(** ** tiered_tariff_calculator.py *)

Module Tiered.

Open Scope string_scope.
Open Scope float_scope.

(** A tier [(block_kwh, rate)]; [None] is the unlimited block. *)
Definition Tier : Type := option float * float.

Record TierBreakdown : Type := {
  tier_index : Z;
  kwh : float;
  rate : float;
  cost : float
}.

(** The dict of one breakdown entry.  [format_breakdown] reads it with
    defaults, so a key may be absent. *)
Record ItemDict : Type := {
  item_tier : option Z;
  item_kwh : option float;
  item_rate : option float;
  item_cost : option float
}.

Definition as_dict (t : TierBreakdown) : ItemDict :=
  {| item_tier := Some (tier_index t);
     item_kwh := Some (kwh t);
     item_rate := Some (rate t);
     item_cost := Some (cost t) |}.

(** The dict of a bill, read with defaults in the same way. *)
Record BillDict : Type := {
  breakdown : option (list ItemDict);
  energy_cost : option float;
  fixed_fee : option float;
  total : option float
}.

Definition _validate_common (consumption_kwh fixed_fee : float) : result unit :=
  if consumption_kwh <? 0 then Raise (ValueError "consumption_kwh must be >= 0")
  else if fixed_fee <? 0 then Raise (ValueError "fixed_fee must be >= 0")
  else Ok tt.

(** The loop of [_validate_tier_list], at the tier numbered [i]. *)
Fixpoint validate_tiers (i : Z) (tier_list : list Tier) : result unit :=
  match tier_list with
  | [] => Ok tt
  | (block_kwh, rate) :: rest =>
      if rate <? 0
      then Raise (ValueError ("rate for tier " ++ str_of_int i ++ " must be >= 0"))
      else
        match block_kwh with
        | Some b =>
            if b <=? 0
            then Raise (ValueError ("block_kwh for tier " ++ str_of_int i
                                    ++ " must be > 0 or None for unlimited"))
            else validate_tiers (i + 1) rest
        | None => validate_tiers (i + 1) rest
        end
  end.

Definition _validate_tier_list (tier_list : list Tier) : result unit :=
  match tier_list with
  | [] => Raise (ValueError "tiers must be a non-empty list")
  | _ => validate_tiers 1 tier_list
  end.

(** The loop of [calculate_tiered_bill], at the tier numbered [idx] with
    [remaining] still to bill: the entries it appends and what is left when
    it ends, by [break] or at the end of the list. *)
Fixpoint walk_tiers (idx : Z) (remaining : float) (tier_list : list Tier)
  : list TierBreakdown * float :=
  match tier_list with
  | [] => ([], remaining)
  | (block_kwh, rate) :: rest =>
      if remaining <=? 0 then ([], remaining)
      else
        let block :=
          match block_kwh with
          | None => remaining
          | Some b => Py.min remaining b
          end in
        let cost := block * rate in
        let '(entries, unbilled) := walk_tiers (idx + 1) (remaining - block) rest in
        ({| tier_index := idx; kwh := block; rate := rate; cost := cost |} :: entries,
         unbilled)
  end.

Definition overflow_message (remaining : float) : string :=
  "Consumption exceeds defined tiers by " ++ format_f false 3 remaining
  ++ " kWh. Add a final tier with block_kwh=None.".

Definition calculate_tiered_bill
  (consumption_kwh : float) (tier_list : list Tier) (fixed_fee : float)
  : result BillDict :=
  _ <- _validate_common consumption_kwh fixed_fee ;;
  _ <- _validate_tier_list tier_list ;;
  let '(breakdown, remaining) := walk_tiers 1 consumption_kwh tier_list in
  if 1e-9 <? remaining then Raise (ValueError (overflow_message remaining))
  else
    let energy_cost := Py.sum (map cost breakdown) in
    let total := energy_cost + fixed_fee in
    Ok {| breakdown := Some (map as_dict breakdown);
          energy_cost := Some energy_cost;
          fixed_fee := Some fixed_fee;
          total := Some total |}.

(** *** Parsing *)

Section Parsing.

(** The two library calls of [parse_tiers]: [float(s)] on a [str] and
    [json.loads]. *)
Variable float_of_str : string -> result float.
Variable json_loads : string -> result json.

(** [float(v)] on a decoded JSON value. *)
Definition float_of_json (v : json) : result float :=
  match v with
  | JBool b => Ok (if b then 1 else 0)
  | JInt n => float_of_int n
  | JFloat x => Ok x
  | JStr s => float_of_str s
  | _ =>
      Raise (TypeError ("float() argument must be a string or a real number, not '"
                        ++ type_name v ++ "'"))
  end.

(** One turn of the JSON loop. *)
Definition tier_of_json (pair : json) : result Tier :=
  sr <- unpack2 pair ;;
  let '(size, rate) := sr in
  size' <- match size with
           | JNull => Ok None
           | _ => x <- float_of_json size ;; Ok (Some x)
           end ;;
  rate' <- float_of_json rate ;;
  Ok (size', rate').

Definition unlimited_token (s : string) : bool :=
  String.eqb s "*" || String.eqb s "None" || String.eqb s "null".

(** One turn of the shorthand loop. *)
Definition tier_of_part (part : string) : result Tier :=
  match split "@" (strip part) with
  | [size_s; rate_s] =>
      size <- (if unlimited_token (strip size_s) then Ok None
               else x <- float_of_str size_s ;; Ok (Some x)) ;;
      rate <- float_of_str rate_s ;;
      Ok (size, rate)
  | _ :: _ :: _ :: _ => Raise (ValueError "too many values to unpack (expected 2)")
  | few =>
      Raise (ValueError ("not enough values to unpack (expected 2, got "
                         ++ str_of_int (Z.of_nat (List.length few)) ++ ")"))
  end.

(** [out] after the loop over [xs], or the first exception. *)
Fixpoint collect {A B : Type} (f : A -> result B) (xs : list A) : result (list B) :=
  match xs with
  | [] => Ok []
  | x :: rest => y <- f x ;; ys <- collect f rest ;; Ok (y :: ys)
  end.

Definition parse_tiers (text : string) : result (list Tier) :=
  match text with
  | EmptyString => Raise (ValueError "tiers text is empty")
  | _ =>
      let t := strip text in
      if startswith t "["
      then
        data <- json_loads t ;;
        match iterate data with
        | Some pairs => collect tier_of_json pairs
        | None => Raise (TypeError ("'" ++ type_name data ++ "' object is not iterable"))
        end
      else collect tier_of_part (split "," t)
  end.

End Parsing.

(** *** Presentation *)

Definition format_currency (value : float) (symbol : string) : string :=
  symbol ++ format_f true 2 value.

(** The two characters between [kWh] and the rate in the source's format
    string, U+00C3 and U+2014. *)
Definition times_sign : string :=
  string_of_list_ascii
    (map ascii_of_N [195; 131; 226; 128; 148]%N).

Definition get {A : Type} (v : option A) (default : A) : A :=
  match v with
  | Some a => a
  | None => default
  end.

Definition item_line (currency_symbol : string) (item : ItemDict) : string :=
  let tier := match item_tier item with
              | Some n => str_of_int n
              | None => "-"%string
              end in
  let kwh := get (item_kwh item) 0 in
  let rate := get (item_rate item) 0 in
  let cost := get (item_cost item) (kwh * rate) in
  "  Tier " ++ tier ++ ": " ++ format_f false 3 kwh ++ " kWh " ++ times_sign ++ " "
  ++ format_currency rate currency_symbol ++ " = "
  ++ format_currency cost currency_symbol.

(** A closing line: its label, then [result.get(key, 0.0)] as currency. *)
Definition amount_line (label : string) (value : option float) (currency_symbol : string)
  : string :=
  label ++ format_currency (get value 0) currency_symbol.

(** The list [lines] that [format_breakdown] joins. *)
Definition breakdown_lines (result : BillDict) (currency_symbol : string) : list string :=
  List.app ["Breakdown:"]
    (List.app (map (item_line currency_symbol) (get (breakdown result) []))
       [EmptyString;
        amount_line "Energy cost = " (energy_cost result) currency_symbol;
        amount_line "Fixed fee   = " (fixed_fee result) currency_symbol;
        amount_line "Total bill  = " (total result) currency_symbol]).

Definition format_breakdown (result : BillDict) (currency_symbol : string) : string :=
  join "/n" (breakdown_lines result currency_symbol).

End Tiered.

(** ** [float(s)] on ASCII decimal literals

    The built-in on the strings the shorthand form is written in: white
    space around, a sign, then [inf], [infinity] or [nan] in any case, or
    digits (single underscores between them allowed) with an optional point
    and exponent.  The result is the float nearest to the decimal value. *)

Module Literal.

Open Scope string_scope.

Definition is_digit (c : ascii) : bool := ((48 <=? code c) && (code c <=? 57))%N.

Definition digit_value (c : ascii) : Z := (Z.of_N (code c) - 48)%Z.

(** Reads a [digitpart] in front of [s], after [n] digits that gave [acc]:
    the value, the number of digits, and the rest. *)
Fixpoint scan_digits (acc : Z) (n : nat) (s : string) : Z * nat * string :=
  match s with
  | String c s' =>
      if is_digit c then scan_digits (acc * 10 + digit_value c) (S n) s'
      else
        match n, s' with
        | S _, String c' s'' =>
            if Ascii.eqb c "_" && is_digit c'
            then scan_digits (acc * 10 + digit_value c') (S n) s''
            else (acc, n, s)
        | _, _ => (acc, n, s)
        end
  | EmptyString => (acc, n, s)
  end.

(** An optional sign in front of [s]: whether it is [-], and the rest. *)
Definition scan_sign (s : string) : bool * string :=
  match s with
  | String c s' =>
      if Ascii.eqb c "-" then (true, s')
      else if Ascii.eqb c "+" then (false, s')
      else (false, s)
  | EmptyString => (false, s)
  end.

Definition lower (c : ascii) : ascii :=
  if ((65 <=? code c) && (code c <=? 90))%N then ascii_of_N (code c + 32) else c.

Definition lowercase (s : string) : string :=
  string_of_list_ascii (map lower (list_ascii_of_string s)).

(** [(-1)^neg * d * 10^e10], rounded to the nearest float, ties to even. *)
Definition nearest (neg : bool) (d e10 : Z) : float :=
  SF2Prim
    match d, e10 with
    | Zpos p, Zneg q =>
        SFdiv prec emax (S754_finite neg p 0) (S754_finite false (10 ^ q) 0)
    | Zpos p, _ =>
        binary_normalize prec emax (if neg then - (d * 10 ^ e10) else d * 10 ^ e10) 0 false
    | _, _ => S754_zero neg
    end.

Definition float_of_str (text : string) : result float :=
  let bad := Raise (ValueError ("could not convert string to float: '" ++ text ++ "'")) in
  let '(neg, body) := scan_sign (strip text) in
  let word := lowercase body in
  if String.eqb word "inf" || String.eqb word "infinity"
  then Ok (if neg then neg_infinity else infinity)
  else if String.eqb word "nan" then Ok nan
  else
    let '(ip, n_int, r1) := scan_digits 0 0 body in
    let '(m, n_frac, r2) :=
      match r1 with
      | String "." r => scan_digits ip 0 r
      | _ => (ip, O, r1)
      end in
    match n_int, n_frac with
    | O, O => bad
    | _, _ =>
        match r2 with
        | EmptyString => Ok (nearest neg m (- Z.of_nat n_frac))
        | String c r3 =>
            if Ascii.eqb (lower c) "e"
            then
              let '(eneg, r4) := scan_sign r3 in
              match scan_digits 0 0 r4 with
              | (ex, S _, EmptyString) =>
                  Ok (nearest neg m ((if eneg then - ex else ex) - Z.of_nat n_frac))
              | _ => bad
              end
            else bad
        end
    end.

End Literal.

(** ** [json.loads] on texts without string escapes

    The decoder on JSON texts built from [null], [true], [false], [NaN],
    [Infinity], [-Infinity], numbers, strings, arrays and objects.  A string
    with a backslash in it is outside this fragment and is refused here,
    where the library would decode the escape. *)

Module JsonText.

Import Literal.
Open Scope string_scope.

Definition is_ws (c : ascii) : bool :=
  ((code c =? 32) || (code c =? 9) || (code c =? 10) || (code c =? 13))%N.

Fixpoint skip_ws (s : string) : string :=
  match s with
  | String c s' => if is_ws c then skip_ws s' else s
  | EmptyString => s
  end.

(** The digits in front of [s], and the rest. *)
Fixpoint take_digits (s : string) : string * string :=
  match s with
  | String c s' =>
      if is_digit c
      then let '(ds, r) := take_digits s' in (String c ds, r)
      else (EmptyString, s)
  | EmptyString => (EmptyString, s)
  end.

Definition int_of_digits (ds : string) : Z :=
  fold_left (fun acc c => (acc * 10 + digit_value c)%Z) (list_ascii_of_string ds) 0%Z.

(** A number in front of [s]: an [int] when it has neither fraction nor
    exponent, else the float its text stands for. *)
Definition number (s : string) : option (json * string) :=
  let '(minus, s1) :=
    match s with
    | String "-" r => ("-", r)
    | _ => (EmptyString, s)
    end in
  match take_digits s1 with
  | (EmptyString, _) => None
  | (String d ds as all, r) =>
      let '(ip, s2) := if Ascii.eqb d "0" then ("0", ds ++ r) else (all, r) in
      let '(frac, s3) :=
        match s2 with
        | String "." r2 =>
            match take_digits r2 with
            | (EmptyString, _) => (EmptyString, s2)
            | (fs, r3) => ("." ++ fs, r3)
            end
        | _ => (EmptyString, s2)
        end in
      let '(ex, s4) :=
        match s3 with
        | String e r3 =>
            if Ascii.eqb e "e" || Ascii.eqb e "E"
            then
              let '(sign, r4) :=
                match r3 with
                | String "+" r' => ("+", r')
                | String "-" r' => ("-", r')
                | _ => (EmptyString, r3)
                end in
              match take_digits r4 with
              | (EmptyString, _) => (EmptyString, s3)
              | (es, r5) => ("e" ++ sign ++ es, r5)
              end
            else (EmptyString, s3)
        | EmptyString => (EmptyString, s3)
        end in
      match frac, ex with
      | EmptyString, EmptyString =>
          let n := int_of_digits ip in
          Some (JInt (match minus with EmptyString => n | _ => - n end)%Z, s4)
      | _, _ =>
          match float_of_str (minus ++ ip ++ frac ++ ex) with
          | Ok x => Some (JFloat x, s4)
          | Raise _ => None
          end
      end
  end.

(** The double quote. *)
Definition quote : ascii := ascii_of_N 34.

(** The characters of a string up to its closing quote, and the rest. *)
Fixpoint string_body (s : string) : option (string * string) :=
  match s with
  | String c s' =>
      if Ascii.eqb c quote then Some (EmptyString, s')
      else if Ascii.eqb c "\" || (code c <? 32)%N then None
      else match string_body s' with
           | Some (body, r) => Some (String c body, r)
           | None => None
           end
  | EmptyString => None
  end.

(** [d[k] = v] on the members of a dict. *)
Fixpoint set_member (k : string) (v : json) (members : list (string * json))
  : list (string * json) :=
  match members with
  | [] => [(k, v)]
  | (k', v') :: rest =>
      if String.eqb k k' then (k', v) :: rest else (k', v') :: set_member k v rest
  end.

(** [s] without the word [w] it starts with. *)
Definition after (w s : string) : option string :=
  if String.prefix w s
  then Some (String.substring (String.length w) (String.length s - String.length w) s)
  else None.

(** A value that is a word or a number. *)
Definition scalar (t : string) : option (json * string) :=
  match after "null" t, after "true" t, after "false" t with
  | Some r, _, _ => Some (JNull, r)
  | _, Some r, _ => Some (JBool true, r)
  | _, _, Some r => Some (JBool false, r)
  | _, _, _ =>
      match after "NaN" t, after "Infinity" t, after "-Infinity" t with
      | Some r, _, _ => Some (JFloat nan, r)
      | _, Some r, _ => Some (JFloat infinity, r)
      | _, _, Some r => Some (JFloat neg_infinity, r)
      | _, _, _ => number t
      end
  end.

Fixpoint value (fuel : nat) (s : string) : option (json * string) :=
  match fuel with
  | O => None
  | S fuel' =>
      match skip_ws s with
      | String c r =>
          if Ascii.eqb c "["
          then
            match skip_ws r with
            | String "]" r' => Some (JArr [], r')
            | _ =>
                match elements fuel' r with
                | Some (items, r') => Some (JArr items, r')
                | None => None
                end
            end
          else if Ascii.eqb c "{"
          then
            match skip_ws r with
            | String "}" r' => Some (JObj [], r')
            | _ =>
                match members fuel' [] r with
                | Some (ms, r') => Some (JObj ms, r')
                | None => None
                end
            end
          else if Ascii.eqb c quote
          then
            match string_body r with
            | Some (body, r') => Some (JStr body, r')
            | None => None
            end
          else scalar (String c r)
      | EmptyString => None
      end
  end
with elements (fuel : nat) (s : string) : option (list json * string) :=
  match fuel with
  | O => None
  | S fuel' =>
      match value fuel' s with
      | Some (v, r) =>
          match skip_ws r with
          | String "," r' =>
              match elements fuel' r' with
              | Some (vs, r'') => Some (v :: vs, r'')
              | None => None
              end
          | String "]" r' => Some ([v], r')
          | _ => None
          end
      | None => None
      end
  end
with members (fuel : nat) (acc : list (string * json)) (s : string)
  : option (list (string * json) * string) :=
  match fuel with
  | O => None
  | S fuel' =>
      match skip_ws s with
      | String c r =>
          if Ascii.eqb c quote
          then
            match string_body r with
            | Some (k, r1) =>
                match skip_ws r1 with
                | String ":" r2 =>
                    match value fuel' r2 with
                    | Some (v, r3) =>
                        match skip_ws r3 with
                        | String "," r4 => members fuel' (set_member k v acc) r4
                        | String "}" r4 => Some (set_member k v acc, r4)
                        | _ => None
                        end
                    | None => None
                    end
                | _ => None
                end
            | None => None
            end
          else None
      | EmptyString => None
      end
  end.

Definition loads (s : string) : result json :=
  match value (2 * String.length s + 2) s with
  | Some (v, r) =>
      match skip_ws r with
      | EmptyString => Ok v
      | _ => Raise (JSONDecodeError "Extra data")
      end
  | None => Raise (JSONDecodeError "Expecting value")
  end.

End JsonText.

(** ** The vocabulary of the statements *)

Module Spec.

Import Tiered.
Open Scope string_scope.
Open Scope float_scope.

(** A tier that passes the two checks of [_validate_tier_list]. *)
Definition valid_tier (t : Tier) : Prop :=
  (snd t <? 0) = false
  /\ match fst t with
     | Some b => (b <=? 0) = false
     | None => True
     end.

(** What is left of [consumption] once the amounts [kwhs] have been taken
    from it one after the other, as the loop does. *)
Definition left_after (consumption : float) (kwhs : list float) : float :=
  fold_left PrimFloat.sub kwhs consumption.

(** The amount a tier takes of what remains. *)
Definition block_of (remaining : float) (block_kwh : option float) : float :=
  match block_kwh with
  | None => remaining
  | Some b => Py.min remaining b
  end.

(** The shapes of a float that is neither NaN nor infinite. *)
Definition SFfinite (x : spec_float) : bool :=
  match x with
  | S754_zero _ | S754_finite _ _ _ => true
  | _ => false
  end.

(** The numbers of the tiers from [idx] on: [idx], [idx + 1], ... *)
Definition numbers_from (idx : Z) (n : nat) : list Z :=
  map (fun k => (idx + Z.of_nat k)%Z) (seq 0 n).

(** The bill that comes out of the walk. *)
Definition bill_of (consumption_kwh : float) (tier_list : list Tier) (fixed_fee : float)
  : BillDict :=
  let entries := fst (walk_tiers 1 consumption_kwh tier_list) in
  {| breakdown := Some (map as_dict entries);
     energy_cost := Some (Py.sum (map cost entries));
     fixed_fee := Some fixed_fee;
     total := Some (Py.sum (map cost entries) + fixed_fee) |}.

(** [abs(sum(e["kwh"] for e in r["breakdown"]) - consumption) <= 1e-9]: the
    test that the amounts of the entries add up to the consumption. *)
Definition kwh_sum_close (consumption : float) (r : BillDict) : bool :=
  abs (Py.sum (map (fun item => get (item_kwh item) 0) (get (breakdown r) []))
       - consumption) <=? 1e-9.

(** The rational number a finite float stands for. *)
Definition exact (x : float) : Q :=
  match Prim2SF x with
  | S754_finite s m e =>
      ((if s then -1 else 1) * inject_Z (Z.pos m) * Qpower 2 e)%Q
  | _ => 0%Q
  end.

(** The sum of finite floats, without rounding. *)
Definition exact_sum (xs : list float) : Q :=
  fold_right Qplus 0%Q (map exact xs).

(** An ASCII character that is not white space. *)
Definition solid (c : ascii) : bool := negb (space1 c) && (code c <? 128)%N.

(** Every character of [s] satisfies [p]. *)
Definition all_chars (p : ascii -> bool) (s : string) : bool :=
  forallb p (list_ascii_of_string s).

(** [s] has no character [sep]. *)
Definition free_of (sep : ascii) (s : string) : bool :=
  all_chars (fun c => negb (Ascii.eqb c sep)) s.

(** A visible ASCII character other than the comma, the at sign and the
    opening bracket: what number literals and the unlimited tokens are
    written with. *)
Definition literal_char (c : ascii) : bool :=
  ((32 <? code c) && (code c <? 127))%N
  && negb (Ascii.eqb c ",") && negb (Ascii.eqb c "@") && negb (Ascii.eqb c "[").

Definition literal (s : string) : Prop :=
  s <> EmptyString /\ all_chars literal_char s = true.

(** The shorthand text of entries given by their two literals,
    [size@rate,size@rate,...], with [pad] after each comma. *)
Definition shorthand_text (pad : string) (entries : list (string * string)) : string :=
  join (String "," pad) (map (fun e => fst e ++ "@" ++ snd e)%string entries).

(** Starts and ends with an ASCII character that is not white space. *)
Definition solid_ends (s : string) : Prop :=
  (exists c r, s = String c r /\ solid c = true)
  /\ (exists c r, rev s = String c r /\ solid c = true).

Section Denotation.

Variable float_of_str : string -> result float.

(** A shorthand entry stands for a tier: the size literal is an unlimited
    token, or a literal of the size; the rate literal is one of the rate. *)
Inductive shorthand_denotes : string * string -> Tier -> Prop :=
| sd_unlimited (size_s rate_s : string) (r : float) :
    literal size_s -> literal rate_s ->
    unlimited_token size_s = true ->
    float_of_str rate_s = Ok r ->
    shorthand_denotes (size_s, rate_s) (None, r)
| sd_size (size_s rate_s : string) (x r : float) :
    literal size_s -> literal rate_s ->
    unlimited_token size_s = false ->
    float_of_str size_s = Ok x ->
    float_of_str rate_s = Ok r ->
    shorthand_denotes (size_s, rate_s) (Some x, r).

(** A decoded JSON pair stands for a tier: [null] for no size, or a value
    that [float] turns into the size; a value that it turns into the rate. *)
Inductive json_denotes : json -> Tier -> Prop :=
| jd_unlimited (v : json) (r : float) :
    float_of_json float_of_str v = Ok r ->
    json_denotes (JArr [JNull; v]) (None, r)
| jd_size (u v : json) (x r : float) :
    u <> JNull ->
    float_of_json float_of_str u = Ok x ->
    float_of_json float_of_str v = Ok r ->
    json_denotes (JArr [u; v]) (Some x, r).

(** What [parse_tiers] makes of a well-formed shorthand entry. *)
Definition entry_denotes (part : string) (t : Tier) : Prop :=
  exists size_s rate_s,
    split "@" (strip part) = [size_s; rate_s]
    /\ float_of_str rate_s = Ok (snd t)
    /\ if unlimited_token (strip size_s) then fst t = None
       else exists x, float_of_str size_s = Ok x /\ fst t = Some x.

End Denotation.

(** The bill of 150 kWh over the tiers [(100, 0.2), (None, 0.3)] with a
    fixed fee of 5, used as an instance below. *)
Definition sample_tiers : list Tier := [(Some 100, 0.2); (None, 0.3)].

Definition sample_bill : BillDict :=
  {| breakdown :=
       Some (map as_dict
               [ {| tier_index := 1; kwh := 100; rate := 0.2; cost := 20 |};
                 {| tier_index := 2; kwh := 50; rate := 0.3; cost := 15 |} ]);
     energy_cost := Some 35;
     fixed_fee := Some 5;
     total := Some 40 |}.

End Spec.

(** * Properties *)

(** ** Facts on binary64 arithmetic

    What the proofs below need of IEEE arithmetic, from its specification
    in [SpecFloat]: how a mantissa is shifted and rounded, and that the
    difference of two positive finite floats never overflows. *)

Module Rounding.

Import Spec.
Local Open Scope Z_scope.

Lemma digits2_pos_bounds (p : positive) :
  2 ^ (Z.pos (digits2_pos p) - 1) <= Z.pos p < 2 ^ Z.pos (digits2_pos p).
Proof.
  induction p as [p IH | p IH | ]; cbn [digits2_pos].
  - rewrite Pos2Z.inj_succ, Z.pow_succ_r by lia.
    replace (Z.succ (Z.pos (digits2_pos p)) - 1) with (Z.succ (Z.pos (digits2_pos p) - 1)) by lia.
    rewrite Z.pow_succ_r by lia. lia.
  - rewrite Pos2Z.inj_succ, Z.pow_succ_r by lia.
    replace (Z.succ (Z.pos (digits2_pos p)) - 1) with (Z.succ (Z.pos (digits2_pos p) - 1)) by lia.
    rewrite Z.pow_succ_r by lia. lia.
  - cbn. lia.
Qed.

Lemma digits2_pos_unique (p : positive) (k : Z) :
  2 ^ (k - 1) <= Z.pos p < 2 ^ k -> Z.pos (digits2_pos p) = k.
Proof.
  intros [Hlo Hhi]. pose proof (digits2_pos_bounds p) as [Blo Bhi].
  assert (0 < k).
  { destruct (Z.lt_trichotomy k 0) as [Hk | [Hk | Hk]]; try lia.
    - rewrite Z.pow_neg_r in Hhi by lia. lia.
    - subst. cbn in Hhi. lia. }
  assert (k - 1 < Z.pos (digits2_pos p)).
  { apply (Z.pow_lt_mono_r_iff 2); lia. }
  assert (Z.pos (digits2_pos p) - 1 < k).
  { apply (Z.pow_lt_mono_r_iff 2); lia. }
  lia.
Qed.

Lemma shr_1_m (mrs : shr_record) :
  0 <= shr_m mrs -> shr_m (shr_1 mrs) = shr_m mrs / 2.
Proof.
  destruct mrs as [m r s]. cbn [shr_m]. intros Hm.
  destruct m as [ | [p | p | ] | p]; cbn [shr_1 shr_m]; try lia; try reflexivity.
  - apply Z.div_unique with 1; lia.
  - apply Z.div_unique with 0; lia.
Qed.

Lemma iter_shr_1_m (n : positive) :
  forall mrs, 0 <= shr_m mrs ->
    shr_m (iter_pos shr_1 n mrs) = shr_m mrs / 2 ^ Z.pos n.
Proof.
  assert (Hnn : forall k mrs, 0 <= shr_m mrs -> 0 <= shr_m mrs / 2 ^ Z.pos k).
  { intros. apply Z.div_pos; [ assumption | apply Z.pow_pos_nonneg; lia ]. }
  induction n as [n IH | n IH | ]; intros mrs Hm; cbn [iter_pos];
    try assert (Hp : 0 < 2 ^ Z.pos n) by (apply Z.pow_pos_nonneg; lia).
  - assert (H1 : 0 <= shr_m (shr_1 mrs)).
    { rewrite shr_1_m by assumption. apply Z.div_pos; lia. }
    rewrite IH; [ | rewrite IH by assumption; now apply Hnn ].
    rewrite IH, shr_1_m by assumption.
    rewrite !Z.div_div by lia.
    f_equal. replace (Z.pos n~1) with (1 + Z.pos n + Z.pos n) by lia.
    rewrite !Z.pow_add_r, Z.pow_1_r by lia. ring.
  - rewrite IH; [ | rewrite IH by assumption; now apply Hnn ].
    rewrite IH by assumption.
    rewrite Z.div_div by lia.
    f_equal. replace (Z.pos n~0) with (Z.pos n + Z.pos n) by lia.
    rewrite Z.pow_add_r by lia. ring.
  - rewrite shr_1_m by assumption. reflexivity.
Qed.

Lemma round_nearest_even_range (m : Z) (l : location) :
  m <= round_nearest_even m l <= m + 1.
Proof.
  destruct l as [ | [ | | ]]; cbn; try destruct (Z.even m); lia.
Qed.

Lemma fexp_eq (x : Z) : fexp prec emax x = Z.max (x - 53) (-1074).
Proof. reflexivity. Qed.

Lemma Zdigits2_pos (z : Z) : 0 < z -> exists p, z = Z.pos p.
Proof. destruct z; try lia. eauto. Qed.

(** second normalisation *)
Lemma renormalize_finite (s : bool) (m1 e1 : Z) :
  -1074 <= e1 <= 971 ->
  0 < m1 <= 2 ^ 53 ->
  (e1 = 971 -> m1 < 2 ^ 53) ->
  (m1 < 2 ^ 53 -> fexp prec emax (Zdigits2 m1 + e1) <= e1) ->
  SFfinite
    (let '(mrs, e2) := shr_fexp prec emax m1 e1 loc_Exact in
     match shr_m mrs with
     | Z0 => S754_zero s
     | Zpos m => if e2 <=? emax - prec then S754_finite s m e2 else S754_infinity s
     | Zneg _ => S754_nan
     end) = true.
Proof.
  intros He [Hm0 Hm1] Htop Hcan.
  destruct (Zdigits2_pos m1 Hm0) as [p ->].
  unfold shr_fexp. cbn [Zdigits2 shr_record_of_loc].
  destruct (Z.eq_dec (Z.pos p) (2 ^ 53)) as [Heq | Hne].
  - assert (Hd : Z.pos (digits2_pos p) = 54).
    { apply digits2_pos_unique. rewrite Heq. split; [ reflexivity | ].
      apply Z.pow_lt_mono_r; lia. }
    rewrite Hd, fexp_eq.
    replace (Z.max (54 + e1 - 53) (-1074) - e1) with 1 by lia.
    cbn [shr iter_pos]. 
    assert (Hs : shr_m (shr_1 {| shr_m := Z.pos p; shr_r := false; shr_s := false |}) = 2 ^ 52).
    { rewrite shr_1_m by (cbn; lia). cbn [shr_m]. rewrite Heq. reflexivity. }
    rewrite Hs. change (2 ^ 52) with (Z.pos (2 ^ 52)%positive). 
    replace (e1 + 1 <=? emax - prec) with true; [ reflexivity | ].
    symmetry. apply Z.leb_le. change (emax - prec) with 971. lia.
  - assert (Hlt : Z.pos p < 2 ^ 53) by lia.
    specialize (Hcan Hlt). cbn [Zdigits2] in Hcan.
    unfold shr.
    destruct (fexp prec emax (Z.pos (digits2_pos p) + e1) - e1) as [ | k | k ] eqn:Hk; try lia.
    + cbn [shr_m]. replace (e1 <=? emax - prec) with true; [ reflexivity | ].
      symmetry. apply Z.leb_le. change (emax - prec) with 971. lia.
    + cbn [shr_m]. replace (e1 <=? emax - prec) with true; [ reflexivity | ].
      symmetry. apply Z.leb_le. change (emax - prec) with 971. lia.
Qed.

Lemma magnitude_bound (m : positive) (e : Z) :
  -1074 <= e ->
  Z.pos m * 2 ^ (e + 1074) < (2 ^ 53 - 1) * 2 ^ 2045 ->
  Z.pos (digits2_pos m) + e <= 1024.
Proof.
  intros He Hb. pose proof (digits2_pos_bounds m) as [Hlo _].
  set (d := Z.pos (digits2_pos m)) in *.
  assert (Hd : 0 < d) by (unfold d; lia).
  assert (Hp : 0 < 2 ^ (e + 1074)) by (apply Z.pow_pos_nonneg; lia).
  assert (H1 : 2 ^ (d - 1 + (e + 1074)) < 2 ^ (53 + 2045)).
  { rewrite !Z.pow_add_r by lia.
    assert (0 < 2 ^ 2045) by (apply Z.pow_pos_nonneg; lia).
    set (A := 2 ^ 2045) in *. set (B := 2 ^ (e + 1074)) in *.
    set (C := 2 ^ (d - 1)) in *. nia. }
  apply Z.pow_lt_mono_r_iff in H1; lia.
Qed.

Lemma binary_round_aux_finite (s : bool) (m : positive) (e : Z) :
  -1074 <= e ->
  e <= fexp prec emax (Z.pos (digits2_pos m) + e) ->
  Z.pos m * 2 ^ (e + 1074) < (2 ^ 53 - 1) * 2 ^ 2045 ->
  SFfinite (binary_round_aux prec emax s (Z.pos m) e loc_Exact) = true.
Proof.
  intros He Hcan Hb.
  pose proof (magnitude_bound m e He Hb) as Hmag.
  pose proof (digits2_pos_bounds m) as [Hlo Hhi].
  unfold binary_round_aux.
  destruct (shr_fexp prec emax (Z.pos m) e loc_Exact) as [mrs e1] eqn:Hshr.
  unfold shr_fexp in Hshr. cbn [Zdigits2 shr_record_of_loc] in Hshr.
  rewrite fexp_eq in Hcan, Hshr.
  set (d := Z.pos (digits2_pos m)) in *.
  unfold shr in Hshr.
  destruct (Z.max (d + e - 53) (-1074) - e) as [ | k | k ] eqn:Hn; try lia.
  - injection Hshr as <- <-. cbn [shr_m loc_of_shr_record round_nearest_even].
    assert (Hd : d <= 53) by lia.
    assert (Hm : Z.pos m < 2 ^ 53).
    { apply Z.lt_le_trans with (2 ^ d); [ assumption | apply Z.pow_le_mono_r; lia ]. }
    apply renormalize_finite; try lia.
    intros _. cbn [Zdigits2]. fold d. rewrite fexp_eq. lia.
  - injection Hshr as <- <-.
    assert (Hk : Z.pos k = d - 53) by lia.
    assert (Hq : shr_m (iter_pos shr_1 k {| shr_m := Z.pos m; shr_r := false; shr_s := false |})
                 = Z.pos m / 2 ^ Z.pos k).
    { now rewrite iter_shr_1_m by (cbn; lia). }
    set (mrs := iter_pos shr_1 k _) in *.
    pose proof (round_nearest_even_range (shr_m mrs) (loc_of_shr_record mrs)) as Hr.
    set (m1 := round_nearest_even _ _) in *.
    rewrite Hq in Hr.
    assert (Hp : 0 < 2 ^ Z.pos k) by (apply Z.pow_pos_nonneg; lia).
    assert (Hq_lo : 2 ^ 52 <= Z.pos m / 2 ^ Z.pos k).
    { apply Z.div_le_lower_bound; [ assumption | ].
      rewrite <- Z.pow_add_r by lia. replace (Z.pos k + 52) with (d - 1) by lia. assumption. }
    assert (Hq_hi : Z.pos m / 2 ^ Z.pos k < 2 ^ 53).
    { apply Z.div_lt_upper_bound; [ assumption | ].
      rewrite <- Z.pow_add_r by lia. replace (Z.pos k + 53) with d by lia. assumption. }
    apply renormalize_finite; try lia.
    + intros Htop.
      assert (Z.pos m / 2 ^ Z.pos k < 2 ^ 53 - 1); [ | lia ].
      apply Z.div_lt_upper_bound; [ assumption | ].
      replace 2045 with (Z.pos k + (e + 1074)) in Hb by lia.
      rewrite (Z.pow_add_r 2 (Z.pos k) (e + 1074)) in Hb by lia.
      assert (0 < 2 ^ (e + 1074)) by (apply Z.pow_pos_nonneg; lia).
      set (A := 2 ^ (e + 1074)) in *. set (B := 2 ^ Z.pos k) in *. nia.
    + intros Hlt.
      destruct (Zdigits2_pos m1) as [p1 Hp1]; [ lia | ].
      rewrite Hp1. cbn [Zdigits2].
      rewrite (digits2_pos_unique p1 53) by (rewrite <- Hp1; change (53 - 1) with 52; lia).
      rewrite fexp_eq. lia.
Qed.

Lemma shl_align_spec (m : positive) (e e' : Z) :
  snd (shl_align m e e') = Z.min e e'
  /\ Z.pos (fst (shl_align m e e')) = Z.pos m * 2 ^ (e - Z.min e e').
Proof.
  unfold shl_align. destruct (e' - e) as [ | k | k ] eqn:Hk; cbn [fst snd].
  - replace (Z.min e e') with e by lia. rewrite Z.sub_diag. cbn. lia.
  - replace (Z.min e e') with e by lia. rewrite Z.sub_diag. cbn. lia.
  - replace (Z.min e e') with e' by lia. split; [ reflexivity | ].
    change (Pos.iter xO m k) with (shift_pos k m).
    rewrite shift_pos_correct. change (Z.pow_pos 2 k) with (2 ^ Z.pos k).
    replace (e - e') with (Z.pos k) by lia. ring.
Qed.

Lemma bounded_inv (m : positive) (e : Z) :
  bounded prec emax m e = true ->
  -1074 <= e <= 971 /\ Z.pos m < 2 ^ 53
  /\ e = fexp prec emax (Z.pos (digits2_pos m) + e).
Proof.
  unfold bounded, canonical_mantissa. rewrite andb_true_iff, Z.eqb_eq, Z.leb_le.
  change (emax - prec) with 971. rewrite fexp_eq. intros [Hc He].
  pose proof (digits2_pos_bounds m) as [_ Hhi].
  repeat split; try lia.
  apply Z.lt_le_trans with (2 ^ Z.pos (digits2_pos m)); [ assumption | ].
  apply Z.pow_le_mono_r; lia.
Qed.

Lemma binary_round_finite (s : bool) (m : positive) (e : Z) :
  -1074 <= e ->
  Z.pos m * 2 ^ (e + 1074) < (2 ^ 53 - 1) * 2 ^ 2045 ->
  SFfinite (binary_round prec emax s m e) = true.
Proof.
  intros He Hb. unfold binary_round.
  set (t := fexp prec emax (Z.pos (digits2_pos m) + e)).
  pose proof (shl_align_spec m e t) as [Hez Hmz].
  destruct (shl_align m e t) as [mz ez]. cbn [fst snd] in Hez, Hmz.
  rewrite <- Hez in Hmz.
  assert (Ht : -1074 <= t) by (unfold t; rewrite fexp_eq; lia).
  assert (Hd : Z.pos (digits2_pos mz) = Z.pos (digits2_pos m) + (e - ez)).
  { apply digits2_pos_unique. pose proof (digits2_pos_bounds m) as [Hlo Hhi].
    assert (0 < 2 ^ (e - ez)) by (apply Z.pow_pos_nonneg; lia).
    rewrite Hmz.
    replace (Z.pos (digits2_pos m) + (e - ez) - 1)
      with (Z.pos (digits2_pos m) - 1 + (e - ez)) by lia.
    rewrite !Z.pow_add_r by lia. nia. }
  apply binary_round_aux_finite.
  - lia.
  - rewrite Hd. replace (Z.pos (digits2_pos m) + (e - ez) + ez)
      with (Z.pos (digits2_pos m) + e) by lia.
    fold t. lia.
  - rewrite Hmz, <- Z.mul_assoc, <- Z.pow_add_r by lia.
    replace (e - ez + (ez + 1074)) with (e + 1074) by lia. assumption.
Qed.

Lemma aligned_bound (m : positive) (e ez : Z) :
  bounded prec emax m e = true -> -1074 <= ez <= e ->
  Z.pos m * 2 ^ (e - ez) * 2 ^ (ez + 1074) <= (2 ^ 53 - 1) * 2 ^ 2045.
Proof.
  intros Hb Hez. apply bounded_inv in Hb as ([Hlo Hhi] & Hm & _).
  rewrite <- Z.mul_assoc, <- Z.pow_add_r by lia.
  replace (e - ez + (ez + 1074)) with (e + 1074) by lia.
  assert (2 ^ (e + 1074) <= 2 ^ 2045) by (apply Z.pow_le_mono_r; lia).
  assert (0 < 2 ^ (e + 1074)) by (apply Z.pow_pos_nonneg; lia).
  set (A := 2 ^ (e + 1074)) in *. set (B := 2 ^ 2045) in *. set (C := 2 ^ 53) in *.
  nia.
Qed.

Lemma SFsub_pos_finite (mx my : positive) (ex ey : Z) :
  bounded prec emax mx ex = true ->
  bounded prec emax my ey = true ->
  SFfinite (SFsub prec emax (S754_finite false mx ex) (S754_finite false my ey)) = true.
Proof.
  intros Hx Hy. cbn [SFsub cond_Zopp].
  pose proof (bounded_inv _ _ Hx) as (Hex & _ & _).
  pose proof (bounded_inv _ _ Hy) as (Hey & _ & _).
  set (ez := Z.min ex ey).
  pose proof (shl_align_spec mx ex ez) as [_ HX].
  pose proof (shl_align_spec my ey ez) as [_ HY].
  replace (Z.min ex ez) with ez in HX by (unfold ez; lia).
  replace (Z.min ey ez) with ez in HY by (unfold ez; lia).
  pose proof (aligned_bound mx ex ez Hx ltac:(unfold ez; lia)) as BX.
  pose proof (aligned_bound my ey ez Hy ltac:(unfold ez; lia)) as BY.
  rewrite <- HX in BX. rewrite <- HY in BY.
  set (X := fst (shl_align mx ex ez)) in *. set (Y := fst (shl_align my ey ez)) in *.
  assert (Hp : 0 < 2 ^ (ez + 1074)) by (apply Z.pow_pos_nonneg; unfold ez; lia).
  unfold binary_normalize.
  destruct (Z.pos X - Z.pos Y) as [ | p | p ] eqn:HD; [ reflexivity | | ];
    (apply binary_round_finite; [ unfold ez; lia | ]);
    set (A := 2 ^ (ez + 1074)) in *; set (B := (2 ^ 53 - 1) * 2 ^ 2045) in *; nia.
Qed.

Lemma binary_round_aux_sign (s : bool) (m e : Z) (l : location) :
  match binary_round_aux prec emax s m e l with
  | S754_zero s' | S754_finite s' _ _ | S754_infinity s' => s' = s
  | S754_nan => True
  end.
Proof.
  unfold binary_round_aux.
  destruct (shr_fexp prec emax m e l) as [mrs e1].
  destruct (shr_fexp prec emax _ e1 loc_Exact) as [mrs' e2].
  destruct (shr_m mrs'); [ reflexivity | | exact I ].
  now destruct (e2 <=? emax - prec).
Qed.

Lemma binary_round_sign (s : bool) (m : positive) (e : Z) :
  match binary_round prec emax s m e with
  | S754_zero s' | S754_finite s' _ _ | S754_infinity s' => s' = s
  | S754_nan => True
  end.
Proof.
  unfold binary_round. destruct (shl_align m e _) as [mz ez].
  apply binary_round_aux_sign.
Qed.

(** Of two positive finite floats in canonical form the smaller has the
    smaller aligned mantissa. *)
Lemma SFltb_aligned (mx my : positive) (ex ey : Z) :
  bounded prec emax mx ex = true ->
  bounded prec emax my ey = true ->
  SFltb (S754_finite false my ey) (S754_finite false mx ex) = true ->
  Z.pos my * 2 ^ (ey - Z.min ex ey) < Z.pos mx * 2 ^ (ex - Z.min ex ey).
Proof.
  intros Hx Hy. unfold SFltb. cbn [SFcompare].
  pose proof (bounded_inv _ _ Hx) as (Hex & Hmx & Hcx).
  pose proof (bounded_inv _ _ Hy) as (Hey & Hmy & Hcy).
  destruct (ey ?= ex) eqn:Hc.
  - apply Z.compare_eq in Hc. subst ey.
    rewrite Z.min_id, Z.sub_diag, Z.pow_0_r, !Z.mul_1_r.
    destruct (Pos.compare_cont Eq my mx) eqn:Hm; try discriminate. intros _.
    change (Pos.compare_cont Eq my mx) with (my ?= mx)%positive in Hm.
    rewrite Pos.compare_lt_iff in Hm. lia.
  - intros _. rewrite Z.compare_lt_iff in Hc.
    replace (Z.min ex ey) with ey by lia. rewrite Z.sub_diag, Z.pow_0_r, Z.mul_1_r.
    rewrite fexp_eq in Hcx.
    pose proof (digits2_pos_bounds mx) as [Hlo _].
    replace (Z.pos (digits2_pos mx) - 1) with 52 in Hlo by lia.
    assert (2 ^ 1 <= 2 ^ (ex - ey)) by (apply Z.pow_le_mono_r; lia).
    change (2 ^ 53) with (2 ^ 52 * 2 ^ 1) in Hmy.
    set (A := 2 ^ (ex - ey)) in *. set (B := 2 ^ 52) in *. set (C := 2 ^ 1) in *.
    assert (0 < B) by (unfold B; lia). nia.
  - discriminate.
Qed.

Lemma SFsub_pos_nonneg (mx my : positive) (ex ey : Z) :
  bounded prec emax mx ex = true ->
  bounded prec emax my ey = true ->
  SFltb (S754_finite false my ey) (S754_finite false mx ex) = true ->
  SFleb (S754_zero false)
    (SFsub prec emax (S754_finite false mx ex) (S754_finite false my ey)) = true.
Proof.
  intros Hx Hy Hlt.
  pose proof (SFsub_pos_finite _ _ _ _ Hx Hy) as Hfin.
  pose proof (SFltb_aligned _ _ _ _ Hx Hy Hlt) as Hal.
  cbn [SFsub cond_Zopp] in *.
  pose proof (bounded_inv _ _ Hx) as (Hex & _ & _).
  pose proof (bounded_inv _ _ Hy) as (Hey & _ & _).
  set (ez := Z.min ex ey) in *.
  pose proof (shl_align_spec mx ex ez) as [_ HX].
  pose proof (shl_align_spec my ey ez) as [_ HY].
  replace (Z.min ex ez) with ez in HX by (unfold ez; lia).
  replace (Z.min ey ez) with ez in HY by (unfold ez; lia).
  rewrite <- HX, <- HY in Hal.
  set (X := fst (shl_align mx ex ez)) in *. set (Y := fst (shl_align my ey ez)) in *.
  destruct (Z.pos X - Z.pos Y) as [ | p | p ] eqn:HD; try lia.
  cbn [binary_normalize] in *.
  pose proof (binary_round_sign false p ez) as Hs.
  destruct (binary_round prec emax false p ez) as [s | s | | s m e]; try discriminate;
    subst s; reflexivity.
Qed.

End Rounding.

(** ** Facts on Python's float comparisons and arithmetic *)

Module FloatFacts.

Import Spec Rounding.
Open Scope float_scope.

Lemma Prim2SF_zero : Prim2SF 0 = S754_zero false.
Proof. reflexivity. Qed.

Lemma SFcompare_refl_finite (s : bool) (m : positive) (e : Z) :
  SFcompare (S754_finite s m e) (S754_finite s m e) = Some Eq.
Proof.
  cbn. rewrite Z.compare_refl, Pos.compare_cont_refl. now destruct s.
Qed.

Lemma is_finite_spec (x : float) : is_finite x = SFfinite (Prim2SF x).
Proof.
  unfold is_finite, is_nan, is_infinity. rewrite !eqb_spec, abs_spec.
  change (Prim2SF infinity) with (S754_infinity false).
  destruct (Prim2SF x) as [s | s | | s m e]; try reflexivity.
  - now destruct s.
  - unfold SFeqb. rewrite SFcompare_refl_finite. reflexivity.
Qed.

Lemma leb_0_not_ltb (x : float) : (0 <=? x) = true -> (x <? 0) = false.
Proof.
  rewrite leb_spec, ltb_spec, Prim2SF_zero.
  destruct (Prim2SF x) as [s | s | | s m e]; try destruct s; cbn; congruence.
Qed.

(** A finite float that is not [<= 0] is a positive finite one. *)
Lemma positive_shape (x : float) :
  (x <=? 0) = false -> is_finite x = true ->
  exists m e, Prim2SF x = S754_finite false m e.
Proof.
  rewrite leb_spec, is_finite_spec, Prim2SF_zero.
  destruct (Prim2SF x) as [s | s | | s m e]; try destruct s; cbn; try congruence.
  eauto.
Qed.

(** So is a block size that passed validation and is below a finite float. *)
Lemma block_shape (b x : float) (m : positive) (e : Z) :
  (b <=? 0) = false -> (b <? x) = true -> Prim2SF x = S754_finite false m e ->
  exists m' e', Prim2SF b = S754_finite false m' e'.
Proof.
  rewrite leb_spec, ltb_spec, Prim2SF_zero. intros H0 Hlt Hx. rewrite Hx in Hlt.
  destruct (Prim2SF b) as [s | s | | s m' e']; try destruct s; cbn in *; try congruence.
  eauto.
Qed.

Lemma sub_diag (x : float) : is_finite x = true -> x - x = 0.
Proof.
  rewrite is_finite_spec. intros Hx. apply Prim2SF_inj.
  rewrite sub_spec, Prim2SF_zero. unfold SF64sub.
  destruct (Prim2SF x) as [s | s | | s m e]; try discriminate.
  - now destruct s.
  - cbn [SFsub]. now rewrite Z.sub_diag.
Qed.

(** The difference of two positive finite floats is finite: it does not
    overflow. *)
Lemma sub_pos_finite (x y : float) (mx my : positive) (ex ey : Z) :
  Prim2SF x = S754_finite false mx ex -> Prim2SF y = S754_finite false my ey ->
  is_finite (x - y) = true.
Proof.
  intros Hx Hy. rewrite is_finite_spec, sub_spec. unfold SF64sub.
  pose proof (Prim2SF_valid x) as Vx. pose proof (Prim2SF_valid y) as Vy.
  rewrite Hx in *. rewrite Hy in *. now apply SFsub_pos_finite.
Qed.

(** Taking a smaller positive float from a larger one leaves no less than
    zero. *)
Lemma sub_pos_nonneg (x y : float) (mx my : positive) (ex ey : Z) :
  Prim2SF x = S754_finite false mx ex -> Prim2SF y = S754_finite false my ey ->
  (y <? x) = true -> (0 <=? x - y) = true.
Proof.
  intros Hx Hy. rewrite ltb_spec, leb_spec, sub_spec, Prim2SF_zero. unfold SF64sub.
  pose proof (Prim2SF_valid x) as Vx. pose proof (Prim2SF_valid y) as Vy.
  rewrite Hx in *. rewrite Hy in *. now apply SFsub_pos_nonneg.
Qed.


(** [0 + x == x] for every [x >= 0]. *)
Lemma add_0_l (x : float) : (0 <=? x) = true -> (0 + x =? x) = true.
Proof.
  rewrite leb_spec, eqb_spec, add_spec, Prim2SF_zero. unfold SF64add.
  destruct (Prim2SF x) as [s | s | | s m e]; try destruct s; cbn [SFadd]; try reflexivity;
    try discriminate.
  intros _. unfold SFeqb. now rewrite SFcompare_refl_finite.
Qed.

End FloatFacts.

(** ** The fixed-rate calculator *)

Module FixedRateFacts.

Import FixedRate FloatFacts.
Open Scope float_scope.

(** C9. On non-negative inputs [fixed_rate_bill] returns the value of the
    expression [total_usage * rate + fixed_fee] as it is, nothing rounded
    by the function itself; a negative input, whichever it is, raises the
    one [ValueError] "Inputs must be non-negative."; and
    [fixed_rate_bill(300, 0.25, 10)] is [85]. *)
Theorem fixed_rate_bill_spec (total_usage rate fixed_fee : float) :
  ((0 <=? total_usage) = true -> (0 <=? rate) = true -> (0 <=? fixed_fee) = true ->
   fixed_rate_bill total_usage rate fixed_fee = Ok (total_usage * rate + fixed_fee))
  /\ ((total_usage <? 0) = true \/ (rate <? 0) = true \/ (fixed_fee <? 0) = true ->
      fixed_rate_bill total_usage rate fixed_fee
      = Raise (ValueError "Inputs must be non-negative."))
  /\ fixed_rate_bill 300 0.25 10 = Ok 85.
Proof.
  unfold fixed_rate_bill. repeat split.
  - intros Hu Hr Hf.
    now rewrite (leb_0_not_ltb _ Hu), (leb_0_not_ltb _ Hr), (leb_0_not_ltb _ Hf).
  - intros [H | [H | H]]; rewrite H; cbn; rewrite ?orb_true_r; reflexivity.
Qed.

Lemma fixed_rate_bill_spec_witness :
  fixed_rate_bill 100 0.2 10 = Ok (100 * 0.2 + 10)
  /\ fixed_rate_bill 100 (-0.25) 10 = Raise (ValueError "Inputs must be non-negative.").
Proof.
  split.
  - apply (proj1 (fixed_rate_bill_spec 100 0.2 10)); reflexivity.
  - apply (proj1 (proj2 (fixed_rate_bill_spec 100 (-0.25) 10))).
    right; left; reflexivity.
Defined.

End FixedRateFacts.

(** ** The tiered engine: validation *)

Module ValidationFacts.

Import Tiered Spec FloatFacts.
Open Scope string_scope.
Open Scope float_scope.

Lemma validate_common_ok (consumption_kwh fixed_fee : float) :
  (consumption_kwh <? 0) = false -> (fixed_fee <? 0) = false ->
  _validate_common consumption_kwh fixed_fee = Ok tt.
Proof.
  intros Hc Hf. unfold _validate_common. now rewrite Hc, Hf.
Qed.

Lemma validate_common_inv (consumption_kwh fixed_fee : float) :
  _validate_common consumption_kwh fixed_fee = Ok tt ->
  (consumption_kwh <? 0) = false /\ (fixed_fee <? 0) = false.
Proof.
  unfold _validate_common.
  destruct (consumption_kwh <? 0); [ discriminate | ].
  destruct (fixed_fee <? 0); [ discriminate | ]. auto.
Qed.

Lemma validate_tiers_ok (tier_list : list Tier) :
  forall i, Forall valid_tier tier_list -> validate_tiers i tier_list = Ok tt.
Proof.
  induction tier_list as [ | [b r] rest IH]; intros i Hv; [ reflexivity | ].
  inversion Hv as [ | t ts [Hr Hb] Hrest]; subst. cbn in Hr, Hb |- *.
  rewrite Hr. destruct b as [x | ]; [ rewrite Hb | ]; now apply IH.
Qed.

Lemma validate_tiers_inv (tier_list : list Tier) :
  forall i, validate_tiers i tier_list = Ok tt -> Forall valid_tier tier_list.
Proof.
  induction tier_list as [ | [b r] rest IH]; intros i Hv; [ constructor | ].
  cbn in Hv. destruct (r <? 0) eqn:Hr; [ discriminate | ].
  destruct b as [x | ].
  - destruct (x <=? 0) eqn:Hx; [ discriminate | ].
    constructor; [ split; assumption | eauto ].
  - constructor; [ split; [ assumption | exact I ] | eauto ].
Qed.

(** The loop stops at the first tier that breaks a rule, the rate's before
    the block's, and names it by its number. *)
Lemma validate_tiers_first (pre post : list Tier) (b : option float) (r : float) :
  forall i, Forall valid_tier pre ->
    validate_tiers i (pre ++ (b, r) :: post)
    = if r <? 0
      then Raise (ValueError ("rate for tier "
                              ++ str_of_int (i + Z.of_nat (List.length pre))
                              ++ " must be >= 0"))
      else match b with
           | Some x =>
               if x <=? 0
               then Raise (ValueError ("block_kwh for tier "
                                       ++ str_of_int (i + Z.of_nat (List.length pre))
                                       ++ " must be > 0 or None for unlimited"))
               else validate_tiers (i + Z.of_nat (List.length pre) + 1) post
           | None => validate_tiers (i + Z.of_nat (List.length pre) + 1) post
           end.
Proof.
  induction pre as [ | [b0 r0] pre IH]; intros i Hv.
  - cbn [List.app List.length Z.of_nat validate_tiers]. now rewrite Z.add_0_r.
  - inversion Hv as [ | t ts [Hr Hb] Hpre]; subst. cbn in Hr, Hb.
    cbn [List.app validate_tiers]. rewrite Hr.
    simpl List.length. rewrite Nat2Z.inj_succ, <- Z.add_1_l, Z.add_assoc.
    destruct b0 as [x | ]; [ rewrite Hb | ]; now apply IH.
Qed.

Lemma validate_tier_list_ok (tier_list : list Tier) :
  tier_list <> [] -> Forall valid_tier tier_list -> _validate_tier_list tier_list = Ok tt.
Proof.
  intros Hne Hv. destruct tier_list; [ congruence | ]. now apply validate_tiers_ok.
Qed.

Lemma validate_tier_list_inv (tier_list : list Tier) :
  _validate_tier_list tier_list = Ok tt -> tier_list <> [] /\ Forall valid_tier tier_list.
Proof.
  destruct tier_list as [ | t ts]; [ discriminate | ]. intros Hv.
  split; [ discriminate | ]. now apply validate_tiers_inv in Hv.
Qed.

(** C3. Validation comes first and in this order, the first failing check
    deciding the result: the consumption, the fixed fee, the emptiness of
    the tier list, then tier by tier (numbered from 1) the rate and, for a
    tier that has a block size, the block size.  Each failure is a
    [ValueError] that names the rule and, for a tier, its number. *)
Theorem validation_order (consumption_kwh fixed_fee : float) (tier_list : list Tier) :
  ((consumption_kwh <? 0) = true ->
   calculate_tiered_bill consumption_kwh tier_list fixed_fee
   = Raise (ValueError "consumption_kwh must be >= 0"))
  /\ ((consumption_kwh <? 0) = false -> (fixed_fee <? 0) = true ->
      calculate_tiered_bill consumption_kwh tier_list fixed_fee
      = Raise (ValueError "fixed_fee must be >= 0"))
  /\ ((consumption_kwh <? 0) = false -> (fixed_fee <? 0) = false -> tier_list = [] ->
      calculate_tiered_bill consumption_kwh tier_list fixed_fee
      = Raise (ValueError "tiers must be a non-empty list"))
  /\ (forall pre post b r,
        (consumption_kwh <? 0) = false -> (fixed_fee <? 0) = false ->
        tier_list = (pre ++ (b, r) :: post)%list -> Forall valid_tier pre ->
        let i := Z.of_nat (S (List.length pre)) in
        ((r <? 0) = true ->
         calculate_tiered_bill consumption_kwh tier_list fixed_fee
         = Raise (ValueError ("rate for tier " ++ str_of_int i ++ " must be >= 0")))
        /\ (forall x, (r <? 0) = false -> b = Some x -> (x <=? 0) = true ->
            calculate_tiered_bill consumption_kwh tier_list fixed_fee
            = Raise (ValueError ("block_kwh for tier " ++ str_of_int i
                                 ++ " must be > 0 or None for unlimited")))).
Proof.
  unfold calculate_tiered_bill, _validate_common.
  split; [ | split; [ | split ] ].
  - intros ->. reflexivity.
  - intros -> ->. reflexivity.
  - intros -> -> ->. reflexivity.
  - intros pre post b r Hc Hf -> Hpre. rewrite Hc, Hf. cbn [bind].
    assert (Hv : _validate_tier_list (pre ++ (b, r) :: post)
                 = validate_tiers 1 (pre ++ (b, r) :: post)) by now destruct pre.
    rewrite Hv, validate_tiers_first by assumption.
    rewrite Z.add_1_l, <- Nat2Z.inj_succ.
    split.
    + intros ->. reflexivity.
    + intros x -> -> ->. reflexivity.
Qed.

Lemma validation_order_witness :
  calculate_tiered_bill 1 [(Some 100, 0.2); (Some 0, 0.3); (None, -1)] 0
  = Raise (ValueError "block_kwh for tier 2 must be > 0 or None for unlimited")
  /\ calculate_tiered_bill 1 [(Some 100, 0.2); (Some 0, -0.3); (None, -1)] 0
     = Raise (ValueError "rate for tier 2 must be >= 0")
  /\ calculate_tiered_bill (-1) [(Some 0, 0.2)] (-1)
     = Raise (ValueError "consumption_kwh must be >= 0").
Proof.
  split; [ | split ].
  - destruct (validation_order 1 0 [(Some 100, 0.2); (Some 0, 0.3); (None, -1)])
      as (_ & _ & _ & H).
    destruct (H [(Some 100, 0.2)] [(None, -1)] (Some 0) 0.3
                eq_refl eq_refl eq_refl ltac:(repeat constructor)) as [_ Hb].
    exact (Hb 0 eq_refl eq_refl eq_refl).
  - destruct (validation_order 1 0 [(Some 100, 0.2); (Some 0, -0.3); (None, -1)])
      as (_ & _ & _ & H).
    destruct (H [(Some 100, 0.2)] [(None, -1)] (Some 0) (-0.3)
                eq_refl eq_refl eq_refl ltac:(repeat constructor)) as [Hr _].
    exact (Hr eq_refl).
  - exact (proj1 (validation_order (-1) (-1) [(Some 0, 0.2)]) eq_refl).
Defined.

End ValidationFacts.

(** ** The tiered engine: the walk over the tiers *)

Module WalkFacts.

Import Tiered Spec FloatFacts ValidationFacts.
Open Scope float_scope.

Lemma walk_break (idx : Z) (remaining : float) (tier_list : list Tier) :
  (remaining <=? 0) = true -> walk_tiers idx remaining tier_list = ([], remaining).
Proof.
  intros H. destruct tier_list as [ | [b r] rest]; cbn; [ | rewrite H ]; reflexivity.
Qed.

Lemma walk_step (idx : Z) (remaining : float) (b : option float) (r : float)
  (rest : list Tier) :
  (remaining <=? 0) = false ->
  walk_tiers idx remaining ((b, r) :: rest)
  = ({| tier_index := idx; kwh := block_of remaining b; rate := r;
        cost := block_of remaining b * r |}
       :: fst (walk_tiers (idx + 1) (remaining - block_of remaining b) rest),
     snd (walk_tiers (idx + 1) (remaining - block_of remaining b) rest)).
Proof.
  intros H. cbn [walk_tiers]. rewrite H. fold (block_of remaining b).
  now destruct (walk_tiers (idx + 1) (remaining - block_of remaining b) rest).
Qed.

(** What the walk leaves is the consumption less the amounts of its
    entries, taken one after the other. *)
Lemma walk_left (tier_list : list Tier) :
  forall idx remaining,
    snd (walk_tiers idx remaining tier_list)
    = left_after remaining (map kwh (fst (walk_tiers idx remaining tier_list))).
Proof.
  induction tier_list as [ | [b r] rest IH]; intros idx remaining; [ reflexivity | ].
  destruct (remaining <=? 0) eqn:H.
  - now rewrite walk_break.
  - rewrite walk_step by assumption. cbn [fst snd map kwh]. apply IH.
Qed.

(** The entries are those of the first tiers of the list, in its order. *)
Lemma walk_numbers (tier_list : list Tier) :
  forall idx remaining,
    map tier_index (fst (walk_tiers idx remaining tier_list))
    = numbers_from idx (List.length (fst (walk_tiers idx remaining tier_list))).
Proof.
  induction tier_list as [ | [b r] rest IH]; intros idx remaining; [ reflexivity | ].
  destruct (remaining <=? 0) eqn:H.
  - now rewrite walk_break.
  - rewrite walk_step by assumption. cbn [fst map tier_index List.length].
    rewrite IH. unfold numbers_from. cbn [seq map]. rewrite <- seq_shift, map_map.
    f_equal; [ cbn; lia | ]. apply map_ext. intros k. lia.
Qed.

Lemma walk_length (tier_list : list Tier) :
  forall idx remaining,
    (List.length (fst (walk_tiers idx remaining tier_list)) <= List.length tier_list)%nat.
Proof.
  induction tier_list as [ | [b r] rest IH]; intros idx remaining; [ reflexivity | ].
  destruct (remaining <=? 0) eqn:H.
  - rewrite walk_break by assumption. cbn. lia.
  - rewrite walk_step by assumption. cbn [fst List.length].
    specialize (IH (idx + 1)%Z (remaining - block_of remaining b)). lia.
Qed.

(** The entry of a touched tier: the tier was reached with something left,
    and took the smaller of that and its block, or all of it when it has
    no block size. *)
Lemma walk_entry (tier_list : list Tier) :
  forall idx remaining k e,
    nth_error (fst (walk_tiers idx remaining tier_list)) k = Some e ->
    exists b r,
      nth_error tier_list k = Some (b, r)
      /\ let before :=
           left_after remaining
             (map kwh (firstn k (fst (walk_tiers idx remaining tier_list)))) in
         (before <=? 0) = false
         /\ kwh e = block_of before b
         /\ rate e = r
         /\ cost e = kwh e * r
         /\ tier_index e = (idx + Z.of_nat k)%Z.
Proof.
  induction tier_list as [ | [b r] rest IH]; intros idx remaining k e.
  - destruct k; discriminate.
  - destruct (remaining <=? 0) eqn:H.
    + rewrite walk_break by assumption. destruct k; discriminate.
    + rewrite walk_step by assumption. cbn [fst]. destruct k as [ | k].
      * intros [= <-]. exists b, r. split; [ reflexivity | ].
        cbn [firstn map left_after fold_left kwh rate cost tier_index].
        rewrite Z.add_0_r. auto.
      * cbn [nth_error firstn map kwh]. intros He.
        destruct (IH _ _ _ _ He) as (b' & r' & Hn & Hk). exists b', r'.
        split; [ assumption | ].
        replace (idx + Z.of_nat (S k))%Z with (idx + 1 + Z.of_nat k)%Z by lia.
        exact Hk.
Qed.

(** One turn of the loop keeps what remains finite. *)
Lemma step_finite (remaining : float) (t : Tier) :
  is_finite remaining = true -> (remaining <=? 0) = false -> valid_tier t ->
  is_finite (remaining - block_of remaining (fst t)) = true.
Proof.
  intros Hfin Hpos [_ Hb]. destruct t as [[b | ] r]; cbn [fst block_of] in *.
  - unfold Py.min. destruct (b <? remaining) eqn:Hlt.
    + destruct (positive_shape _ Hpos Hfin) as (m & e & Hx).
      destruct (block_shape _ _ _ _ Hb Hlt Hx) as (m' & e' & Hy).
      exact (sub_pos_finite _ _ _ _ _ _ Hx Hy).
    + now rewrite sub_diag.
  - now rewrite sub_diag.
Qed.

(** An entry after a tier that has a block size: that tier was filled. *)
Lemma walk_filled (tier_list : list Tier) :
  forall idx remaining j k e size r,
    is_finite remaining = true -> Forall valid_tier tier_list ->
    (j < k)%nat ->
    nth_error (fst (walk_tiers idx remaining tier_list)) k = Some e ->
    nth_error tier_list j = Some (Some size, r) ->
    exists ej,
      nth_error (fst (walk_tiers idx remaining tier_list)) j = Some ej /\ kwh ej = size.
Proof.
  induction tier_list as [ | [b0 r0] rest IH]; intros idx remaining j k e size r Hfin Hv Hjk.
  - destruct k; discriminate.
  - inversion Hv as [ | t ts Ht Hrest]; subst.
    destruct (remaining <=? 0) eqn:H.
    + rewrite walk_break by assumption. destruct k; discriminate.
    + rewrite walk_step by assumption. cbn [fst].
      pose proof (step_finite _ _ Hfin H Ht) as Hfin'. cbn [fst] in Hfin'.
      destruct k as [ | k]; [ lia | ]. cbn [nth_error]. destruct j as [ | j].
      * intros He [= -> ->]. eexists. split; [ reflexivity | ].
        cbn [kwh block_of]. unfold Py.min.
        destruct (size <? remaining) eqn:Hlt; [ reflexivity | ].
        cbn [block_of] in He. unfold Py.min in He. rewrite Hlt in He.
        rewrite sub_diag, walk_break in He by (assumption || reflexivity).
        destruct k; discriminate.
      * cbn [nth_error]. intros He Hj. apply (IH _ _ j k e size r); auto. lia.
Qed.


(** The walk never takes more than there is. *)
Lemma walk_left_nonneg (tier_list : list Tier) :
  forall idx remaining,
    is_finite remaining = true -> (0 <=? remaining) = true ->
    Forall valid_tier tier_list ->
    (0 <=? snd (walk_tiers idx remaining tier_list)) = true.
Proof.
  induction tier_list as [ | [b0 r0] rest IH]; intros idx remaining Hfin H0 Hv.
  - assumption.
  - inversion Hv as [ | t ts Ht Hrest]; subst.
    destruct (remaining <=? 0) eqn:H.
    + now rewrite walk_break.
    + rewrite walk_step by assumption. cbn [snd].
      pose proof (step_finite _ _ Hfin H Ht) as Hfin'. cbn [fst] in Hfin'.
      apply IH; try assumption.
      destruct Ht as [_ Hb]. destruct b0 as [b | ]; cbn [fst block_of] in *.
      * unfold Py.min. destruct (b <? remaining) eqn:Hlt.
        -- destruct (positive_shape _ H Hfin) as (m & e & Hx).
           destruct (block_shape _ _ _ _ Hb Hlt Hx) as (m' & e' & Hy).
           exact (sub_pos_nonneg _ _ _ _ _ _ Hx Hy Hlt).
        -- now rewrite sub_diag.
      * now rewrite sub_diag.
Qed.

End WalkFacts.

(** ** Fixed-point formatting *)

Module FormatFacts.

Import Tiered Spec FloatFacts.
Open Scope string_scope.

Lemma length_append (s t : string) :
  String.length (s ++ t) = (String.length s + String.length t)%nat.
Proof. induction s as [ | c s IH]; cbn; [ reflexivity | now rewrite IH ]. Qed.

Lemma length_zeros (n : nat) : String.length (zeros n) = n.
Proof. induction n as [ | n IH]; cbn; [ reflexivity | now rewrite IH ]. Qed.

(** A number below [10 ^ 3] has at most three digits: by running through
    them. *)
Lemma digits_of_below_1000 (k : Z) :
  (0 <= k < 1000)%Z -> (String.length (digits_of k) <= 3)%nat.
Proof.
  intros Hk.
  assert (Hall : forallb (fun n => String.length (digits_of (Z.of_nat n)) <=? 3)%nat
                   (seq 0 1000) = true) by (vm_compute; reflexivity).
  rewrite forallb_forall in Hall.
  specialize (Hall (Z.to_nat k)). rewrite Z2Nat.id in Hall by lia.
  apply Nat.leb_le, Hall, in_seq. lia.
Qed.

(** With three decimals asked for, three digits follow the point. *)
Lemma fraction_3_length (n : Z) : String.length (fraction 3 n) = 3%nat.
Proof.
  unfold fraction. rewrite length_append, length_zeros.
  pose proof (digits_of_below_1000 (n mod 10 ^ Z.of_nat 3)) as H.
  assert (0 <= n mod 10 ^ Z.of_nat 3 < 1000)%Z by (apply Z.mod_pos_bound; reflexivity).
  specialize (H ltac:(assumption)). lia.
Qed.

Lemma format_f_3_shape (x : float) :
  is_finite x = true ->
  exists front frac,
    format_f false 3 x = front ++ "." ++ frac /\ String.length frac = 3%nat.
Proof.
  rewrite is_finite_spec. unfold format_f.
  destruct (Prim2SF x) as [s | s | | s m e]; try discriminate; intros _.
  - exists ((if s then "-" else EmptyString) ++ digits_of (0 / 10 ^ Z.of_nat 3)),
      (fraction 3 0).
    split; [ | apply fraction_3_length ].
    destruct s; reflexivity.
  - exists ((if s then "-" else EmptyString)
            ++ digits_of (scaled 3 m e / 10 ^ Z.of_nat 3)),
      (fraction 3 (scaled 3 m e)).
    split; [ | apply fraction_3_length ].
    destruct s; cbn [append]; rewrite <- ?append_assoc; reflexivity.
Qed.




(** C8, as the code has it.  [format_breakdown] joins with the two
    characters [/n] the header, one text for each entry, an empty text and
    the three closing texts; amounts are written as currency; and
    [format_currency(1234.5)] is [$1,234.50].  Between [kWh] and the rate
    an entry has the two characters U+00C3 U+2014 (bytes 195, 131, 226, 128,
    148), not the multiplication sign U+00D7 (bytes 195, 151): the bill of
    350 kWh over [(100, 0.20), (200, 0.30), (None, 0.40)] with a fee of 10
    is rendered as stated below. *)
Theorem format_breakdown_output :
  (forall r symbol,
     format_breakdown r symbol
     = join "/n"
         ("Breakdown:"
            :: List.app (map (item_line symbol) (get (breakdown r) []))
                 [EmptyString;
                  amount_line "Energy cost = " (energy_cost r) symbol;
                  amount_line "Fixed fee   = " (fixed_fee r) symbol;
                  amount_line "Total bill  = " (total r) symbol]))
  /\ (forall label value symbol,
        amount_line label (Some value) symbol = label ++ format_currency value symbol)
  /\ (forall symbol n k rt c,
        item_line symbol
          {| item_tier := Some n; item_kwh := Some k; item_rate := Some rt;
             item_cost := Some c |}
        = "  Tier " ++ str_of_int n ++ ": " ++ format_f false 3 k ++ " kWh "
          ++ times_sign ++ " " ++ format_currency rt symbol ++ " = "
          ++ format_currency c symbol)
  /\ list_ascii_of_string times_sign = map ascii_of_N [195; 131; 226; 128; 148]%N
  /\ format_currency 1234.5%float "$" = "$1,234.50"
  /\ (exists r,
        calculate_tiered_bill 350%float
          [(Some 100, 0.20); (Some 200, 0.30); (None, 0.40)]%float 10%float = Ok r
        /\ format_breakdown r "$"
           = "Breakdown:/n  Tier 1: 100.000 kWh " ++ times_sign
             ++ " $0.20 = $20.00/n  Tier 2: 200.000 kWh " ++ times_sign
             ++ " $0.30 = $60.00/n  Tier 3: 50.000 kWh " ++ times_sign
             ++ " $0.40 = $20.00/n/nEnergy cost = $100.00/nFixed fee   = $10.00"
             ++ "/nTotal bill  = $110.00").
Proof.
  do 4 (split; [ reflexivity | ]).
  split; [ vm_compute; reflexivity | ].
  eexists. split; vm_compute; reflexivity.
Qed.

End FormatFacts.

(** ** The tiered engine: the bill *)

Module EngineFacts.

Import Tiered Spec FloatFacts ValidationFacts WalkFacts FormatFacts.
Open Scope string_scope.
Open Scope float_scope.

(** On validated inputs the result is decided by what the walk leaves. *)
Lemma bill_after_validation (consumption_kwh fixed_fee : float) (tier_list : list Tier) :
  (consumption_kwh <? 0) = false -> (fixed_fee <? 0) = false ->
  tier_list <> [] -> Forall valid_tier tier_list ->
  calculate_tiered_bill consumption_kwh tier_list fixed_fee
  = if 1e-9 <? snd (walk_tiers 1 consumption_kwh tier_list)
    then Raise (ValueError
                  (overflow_message (snd (walk_tiers 1 consumption_kwh tier_list))))
    else Ok (bill_of consumption_kwh tier_list fixed_fee).
Proof.
  intros Hc Hf Hne Hv. unfold calculate_tiered_bill, bill_of.
  rewrite validate_common_ok, validate_tier_list_ok by assumption. cbn [bind].
  now destruct (walk_tiers 1 consumption_kwh tier_list).
Qed.

(** A bill was returned: the inputs were valid and the walk left no more
    than the tolerance. *)
Lemma bill_ok_inv (consumption_kwh fixed_fee : float) (tier_list : list Tier)
  (r : BillDict) :
  calculate_tiered_bill consumption_kwh tier_list fixed_fee = Ok r ->
  (consumption_kwh <? 0) = false /\ (fixed_fee <? 0) = false
  /\ tier_list <> [] /\ Forall valid_tier tier_list
  /\ (1e-9 <? snd (walk_tiers 1 consumption_kwh tier_list)) = false
  /\ r = bill_of consumption_kwh tier_list fixed_fee.
Proof.
  intros H.
  assert (Hc : _validate_common consumption_kwh fixed_fee = Ok tt).
  { unfold calculate_tiered_bill in H.
    destruct (_validate_common consumption_kwh fixed_fee) as [[] | e]; [ reflexivity | ].
    discriminate. }
  assert (Ht : _validate_tier_list tier_list = Ok tt).
  { unfold calculate_tiered_bill in H. rewrite Hc in H. cbn [bind] in H.
    destruct (_validate_tier_list tier_list) as [[] | e]; [ reflexivity | ].
    discriminate. }
  apply validate_common_inv in Hc as [Hc Hf].
  apply validate_tier_list_inv in Ht as [Hne Hv].
  rewrite bill_after_validation in H by assumption.
  destruct (1e-9 <? snd (walk_tiers 1 consumption_kwh tier_list)); [ discriminate | ].
  injection H as <-. auto 10.
Qed.

(** C1, at an input where it fails.  Of 100,000,000 kWh three tiers take
    0.1 kWh each and an unlimited one the rest; every subtraction rounds,
    and the amounts of the four entries add up to about 1.5e-8 kWh more than
    the consumption, in Python's float sum and in the exact sum alike.  With
    1e17 kWh and two tiers of 8 kWh they add up to 16 kWh more. *)
Lemma kwh_sum_misses_consumption :
  (exists r,
     calculate_tiered_bill 100000000
       [(Some 0.1, 0.2); (Some 0.1, 0.2); (Some 0.1, 0.2); (None, 0.3)] 0 = Ok r
     /\ kwh_sum_close 100000000 r = false
     /\ (1 # 1000000000
         < Qabs (exact_sum (map (fun item => get (item_kwh item) 0%float)
                              (get (breakdown r) []))
                 - exact 100000000%float))%Q)
  /\ (exists r,
        calculate_tiered_bill 1e17 [(Some 8, 0.1); (Some 8, 0.1); (None, 0.1)] 0 = Ok r
        /\ map item_kwh (get (breakdown r) []) = [Some 8; Some 8; Some 1e17]
        /\ kwh_sum_close 1e17 r = false).
Proof.
  split; eexists; (split; [ vm_compute; reflexivity | ]); split; vm_compute; reflexivity.
Qed.

(** C1, amended.  In a bill that was returned, what is left of the
    consumption after the amounts of the entries have been subtracted from
    it one after the other, in float arithmetic, does not exceed 1e-9, and
    is not negative when the consumption is finite; [energy_cost] is the
    sum of the costs of the entries, and [total] is [energy_cost +
    fixed_fee]. *)
Theorem bill_totals (consumption_kwh fixed_fee : float) (tier_list : list Tier)
  (r : BillDict) :
  calculate_tiered_bill consumption_kwh tier_list fixed_fee = Ok r ->
  exists entries,
    breakdown r = Some (map as_dict entries)
    /\ (1e-9 <? left_after consumption_kwh (map kwh entries)) = false
    /\ (is_finite consumption_kwh = true ->
        (0 <=? left_after consumption_kwh (map kwh entries)) = true)
    /\ energy_cost r = Some (Py.sum (map cost entries))
    /\ Tiered.fixed_fee r = Some fixed_fee
    /\ total r = Some (Py.sum (map cost entries) + fixed_fee).
Proof.
  intros H. apply bill_ok_inv in H as (Hc & Hf & Hne & Hv & Htol & ->).
  exists (fst (walk_tiers 1 consumption_kwh tier_list)).
  rewrite <- walk_left. repeat split; try assumption.
  intros Hfin. apply walk_left_nonneg; try assumption.
  rewrite leb_spec, Prim2SF_zero. rewrite ltb_spec, Prim2SF_zero in Hc.
  rewrite is_finite_spec in Hfin.
  destruct (Prim2SF consumption_kwh) as [s | s | | s m e]; try destruct s;
    cbn in *; congruence.
Qed.

Lemma bill_totals_witness :
  exists entries,
    breakdown sample_bill = Some (map as_dict entries)
    /\ (1e-9 <? left_after 150 (map kwh entries)) = false
    /\ (is_finite 150 = true -> (0 <=? left_after 150 (map kwh entries)) = true)
    /\ energy_cost sample_bill = Some (Py.sum (map cost entries))
    /\ Tiered.fixed_fee sample_bill = Some 5
    /\ total sample_bill = Some (Py.sum (map cost entries) + 5).
Proof.
  apply (bill_totals 150 5 sample_tiers sample_bill).
  vm_compute. reflexivity.
Defined.

(** C2. On validated inputs the overflow error is raised exactly when what
    the walk over all the tiers leaves exceeds 1e-9, the test being made on
    the outcome of the walk.  Its message gives the excess with three
    decimals and tells to add a final tier with [block_kwh=None]; for 101
    kWh against one tier of 100 kWh the excess reads [1.000]. *)
Theorem overflow_check (consumption_kwh fixed_fee : float) (tier_list : list Tier) :
  (consumption_kwh <? 0) = false -> (fixed_fee <? 0) = false ->
  tier_list <> [] -> Forall valid_tier tier_list ->
  let remaining := snd (walk_tiers 1 consumption_kwh tier_list) in
  ((1e-9 <? remaining) = true <->
   calculate_tiered_bill consumption_kwh tier_list fixed_fee
   = Raise (ValueError ("Consumption exceeds defined tiers by "
                        ++ format_f false 3 remaining
                        ++ " kWh. Add a final tier with block_kwh=None.")))
  /\ ((1e-9 <? remaining) = false <->
      exists r, calculate_tiered_bill consumption_kwh tier_list fixed_fee = Ok r)
  /\ (is_finite remaining = true ->
      exists front frac,
        format_f false 3 remaining = front ++ "." ++ frac
        /\ String.length frac = 3%nat)
  /\ calculate_tiered_bill 101 [(Some 100, 0.20)] 0
     = Raise (ValueError "Consumption exceeds defined tiers by 1.000 kWh. Add a final tier with block_kwh=None.").
Proof.
  intros Hc Hf Hne Hv remaining.
  rewrite (bill_after_validation _ _ _ Hc Hf Hne Hv). fold remaining.
  unfold overflow_message.
  split; [ | split; [ | split ] ].
  - destruct (1e-9 <? remaining); split; intros H; try reflexivity; discriminate.
  - destruct (1e-9 <? remaining); split; intros H; try reflexivity; try discriminate.
    + destruct H as [r H]. discriminate.
    + eauto.
  - apply format_f_3_shape.
  - vm_compute. reflexivity.
Qed.

Lemma overflow_check_witness :
  ((1e-9 <? 0.5) = true <->
   calculate_tiered_bill 100.5 [(Some 100, 0.2)] 0
   = Raise (ValueError ("Consumption exceeds defined tiers by "
                        ++ format_f false 3 0.5
                        ++ " kWh. Add a final tier with block_kwh=None.")))
  /\ ((1e-9 <? 0.5) = false <->
      exists r, calculate_tiered_bill 100.5 [(Some 100, 0.2)] 0 = Ok r)
  /\ (is_finite 0.5 = true ->
      exists front frac,
        format_f false 3 0.5 = front ++ "." ++ frac /\ String.length frac = 3%nat)
  /\ calculate_tiered_bill 101 [(Some 100, 0.20)] 0
     = Raise (ValueError "Consumption exceeds defined tiers by 1.000 kWh. Add a final tier with block_kwh=None.").
Proof.
  apply (overflow_check 100.5 0 [(Some 100, 0.2)]).
  - reflexivity.
  - reflexivity.
  - discriminate.
  - repeat constructor.
Defined.

(** C4. In a bill that was returned for a finite consumption the tiers are
    taken in the order of the list: the entries are those of tiers 1 to n;
    each took the smaller of what remained and its block size, or all that
    remained when it has none; and a tier has an entry only when every
    tier before it that has a block size was filled to that size. *)
Theorem tiers_in_order (consumption_kwh fixed_fee : float) (tier_list : list Tier)
  (r : BillDict) :
  is_finite consumption_kwh = true ->
  calculate_tiered_bill consumption_kwh tier_list fixed_fee = Ok r ->
  exists entries,
    breakdown r = Some (map as_dict entries)
    /\ map tier_index entries = numbers_from 1 (List.length entries)
    /\ (List.length entries <= List.length tier_list)%nat
    /\ (forall k e,
          nth_error entries k = Some e ->
          exists b rt,
            nth_error tier_list k = Some (b, rt)
            /\ kwh e = block_of (left_after consumption_kwh (map kwh (firstn k entries))) b
            /\ rate e = rt
            /\ cost e = kwh e * rt)
    /\ (forall j k e size rt,
          (j < k)%nat ->
          nth_error entries k = Some e ->
          nth_error tier_list j = Some (Some size, rt) ->
          exists ej, nth_error entries j = Some ej /\ kwh ej = size).
Proof.
  intros Hfin H. apply bill_ok_inv in H as (Hc & Hf & Hne & Hv & Htol & ->).
  exists (fst (walk_tiers 1 consumption_kwh tier_list)).
  split; [ reflexivity | ]. split; [ apply walk_numbers | ].
  split; [ apply walk_length | ]. split.
  - intros k e He. destruct (walk_entry _ _ _ _ _ He) as (b & rt & Hn & _ & Hk & Hr & Hcost & _).
    exists b, rt. auto.
  - intros j k e size rt Hjk He Hj.
    exact (walk_filled _ _ _ _ _ _ _ _ Hfin Hv Hjk He Hj).
Qed.

Lemma tiers_in_order_witness :
  exists entries,
    breakdown sample_bill = Some (map as_dict entries)
    /\ map tier_index entries = numbers_from 1 (List.length entries)
    /\ (List.length entries <= List.length sample_tiers)%nat
    /\ (forall k e,
          nth_error entries k = Some e ->
          exists b rt,
            nth_error sample_tiers k = Some (b, rt)
            /\ kwh e = block_of (left_after 150 (map kwh (firstn k entries))) b
            /\ rate e = rt
            /\ cost e = kwh e * rt)
    /\ (forall j k e size rt,
          (j < k)%nat ->
          nth_error entries k = Some e ->
          nth_error sample_tiers j = Some (Some size, rt) ->
          exists ej, nth_error entries j = Some ej /\ kwh ej = size).
Proof.
  apply (tiers_in_order 150 5 sample_tiers sample_bill).
  - reflexivity.
  - vm_compute. reflexivity.
Defined.

(** C5. With a valid tier list and a fixed fee that is not negative, a
    consumption of zero is billed, not refused: no entry, an energy cost
    of zero, and a total equal to the fixed fee. *)
Theorem zero_consumption (fixed_fee : float) (tier_list : list Tier) :
  tier_list <> [] -> Forall valid_tier tier_list -> (0 <=? fixed_fee) = true ->
  calculate_tiered_bill 0 tier_list fixed_fee
  = Ok {| breakdown := Some [];
          energy_cost := Some 0;
          Tiered.fixed_fee := Some fixed_fee;
          total := Some (0 + fixed_fee) |}
  /\ (0 + fixed_fee =? fixed_fee) = true.
Proof.
  intros Hne Hv Hf. split; [ | now apply add_0_l ].
  rewrite bill_after_validation; try assumption; try reflexivity.
  - unfold bill_of. rewrite walk_break by reflexivity. reflexivity.
  - now apply leb_0_not_ltb.
Qed.

Lemma zero_consumption_witness :
  calculate_tiered_bill 0 [(Some 100, 0.20); (None, 0.30)] 5
  = Ok {| breakdown := Some [];
          energy_cost := Some 0;
          Tiered.fixed_fee := Some 5;
          total := Some (0 + 5) |}
  /\ (0 + 5 =? 5) = true.
Proof.
  apply (zero_consumption 5 [(Some 100, 0.20); (None, 0.30)]).
  - discriminate.
  - repeat constructor.
  - reflexivity.
Defined.



End EngineFacts.

(** ** Strings *)

Module StrFacts.

Import Tiered Spec.
Open Scope string_scope.

Lemma chars_append (s t : string) :
  list_ascii_of_string (s ++ t)
  = (list_ascii_of_string s ++ list_ascii_of_string t)%list.
Proof. induction s as [ | c s IH]; cbn; [ reflexivity | now rewrite IH ]. Qed.

Lemma rev_involutive (s : string) : rev (rev s) = s.
Proof.
  unfold rev. rewrite list_ascii_of_string_of_list_ascii, List.rev_involutive.
  apply string_of_list_ascii_of_string.
Qed.

Lemma all_chars_append (p : ascii -> bool) (s t : string) :
  all_chars p (s ++ t) = all_chars p s && all_chars p t.
Proof. unfold all_chars. now rewrite chars_append, forallb_app. Qed.

Lemma all_chars_rev (p : ascii -> bool) (s : string) :
  all_chars p (rev s) = all_chars p s.
Proof.
  unfold all_chars, rev. rewrite list_ascii_of_string_of_list_ascii.
  induction (list_ascii_of_string s) as [ | c l IH]; [ reflexivity | ].
  cbn [List.rev forallb]. rewrite forallb_app, IH. cbn. now rewrite andb_true_r, andb_comm.
Qed.

Lemma all_chars_weaken (p q : ascii -> bool) (s : string) :
  (forall c, p c = true -> q c = true) -> all_chars p s = true -> all_chars q s = true.
Proof.
  intros Hpq. unfold all_chars. rewrite !forallb_forall. auto.
Qed.

Lemma drop_space_solid (fwd : bool) (c : ascii) (s : string) :
  solid c = true -> drop_space fwd (String c s) = String c s.
Proof.
  unfold solid. rewrite andb_true_iff, negb_true_iff, N.ltb_lt. intros [Hsp Hc].
  cbn [drop_space]. rewrite Hsp.
  destruct s as [ | c2 [ | c3 s3]]; try reflexivity.
  - replace (if fwd then space2 c c2 else space2 c2 c) with false; [ reflexivity | ].
    unfold space2. destruct fwd.
    + replace (code c =? 194)%N with false by (symmetry; apply N.eqb_neq; lia). reflexivity.
    + replace (code c =? 133)%N with false by (symmetry; apply N.eqb_neq; lia).
      replace (code c =? 160)%N with false by (symmetry; apply N.eqb_neq; lia).
      now rewrite andb_false_r.
  - replace (if fwd then space2 c c2 else space2 c2 c) with false.
    + replace (if fwd then space3 c c2 c3 else space3 c3 c2 c) with false; [ reflexivity | ].
      unfold space3. destruct fwd.
      * replace (code c =? 225)%N with false by (symmetry; apply N.eqb_neq; lia).
        replace (code c =? 226)%N with false by (symmetry; apply N.eqb_neq; lia).
        replace (code c =? 227)%N with false by (symmetry; apply N.eqb_neq; lia).
        reflexivity.
      * replace (code c =? 128)%N with false by (symmetry; apply N.eqb_neq; lia).
        replace (128 <=? code c)%N with false by (symmetry; apply N.leb_gt; lia).
        replace (code c =? 168)%N with false by (symmetry; apply N.eqb_neq; lia).
        replace (code c =? 169)%N with false by (symmetry; apply N.eqb_neq; lia).
        replace (code c =? 175)%N with false by (symmetry; apply N.eqb_neq; lia).
        replace (code c =? 159)%N with false by (symmetry; apply N.eqb_neq; lia).
        cbn. now rewrite !andb_false_r.
    + unfold space2. destruct fwd.
      * replace (code c =? 194)%N with false by (symmetry; apply N.eqb_neq; lia). reflexivity.
      * replace (code c =? 133)%N with false by (symmetry; apply N.eqb_neq; lia).
        replace (code c =? 160)%N with false by (symmetry; apply N.eqb_neq; lia).
        now rewrite andb_false_r.
Qed.

(** Stripping leaves alone a string of ASCII characters none of which is
    white space. *)
Lemma strip_solid (s : string) : all_chars solid s = true -> strip s = s.
Proof.
  intros Hs. unfold strip.
  assert (H1 : drop_space true s = s).
  { destruct s as [ | c s]; [ reflexivity | ]. apply drop_space_solid.
    unfold all_chars in Hs. cbn in Hs. now apply andb_true_iff in Hs as [Hc _]. }
  rewrite H1.
  assert (H2 : drop_space false (rev s) = rev s).
  { rewrite <- all_chars_rev in Hs. destruct (rev s) as [ | c r]; [ reflexivity | ].
    apply drop_space_solid. unfold all_chars in Hs. cbn in Hs.
    now apply andb_true_iff in Hs as [Hc _]. }
  rewrite H2. apply rev_involutive.
Qed.

Lemma literal_char_solid (c : ascii) : literal_char c = true -> solid c = true.
Proof.
  unfold literal_char, solid, space1. rewrite !andb_true_iff, !N.ltb_lt.
  intros [[[[Hlo Hhi] _] _] _]. split; [ | lia ].
  apply negb_true_iff, orb_false_iff. split; apply andb_false_iff.
  - right. apply N.leb_gt. lia.
  - right. apply N.leb_gt. lia.
Qed.

Lemma free_of_cons (sep c : ascii) (s : string) :
  free_of sep (String c s) = negb (Ascii.eqb c sep) && free_of sep s.
Proof. reflexivity. Qed.

Lemma split_free (sep : ascii) (s : string) :
  free_of sep s = true -> split sep s = [s].
Proof.
  induction s as [ | c s IH]; [ reflexivity | ].
  rewrite free_of_cons, andb_true_iff, negb_true_iff. intros [Hc Hs].
  cbn [split]. now rewrite Hc, IH.
Qed.

Lemma split_append (sep : ascii) (a b : string) :
  free_of sep a = true -> split sep (a ++ String sep b) = a :: split sep b.
Proof.
  induction a as [ | c a IH].
  - intros _. cbn. now rewrite Ascii.eqb_refl.
  - rewrite free_of_cons, andb_true_iff, negb_true_iff. intros [Hc Ha].
    cbn [append split]. now rewrite Hc, IH.
Qed.

(** Splitting undoes joining, for parts that do not hold the separator. *)
Lemma split_join (sep : ascii) (parts : list string) :
  parts <> [] -> Forall (fun p => free_of sep p = true) parts ->
  split sep (join (String sep EmptyString) parts) = parts.
Proof.
  unfold join. induction parts as [ | p rest IH]; [ congruence | ]. intros _ Hall.
  inversion Hall as [ | p' rest' Hp Hrest]; subst.
  destruct rest as [ | q rest].
  - now apply split_free.
  - change (concat (String sep EmptyString) (p :: q :: rest))
      with (p ++ String sep (concat (String sep EmptyString) (q :: rest))).
    rewrite split_append by assumption. f_equal.
    apply IH; [ discriminate | assumption ].
Qed.

Lemma collect_ok {A B : Type} (f : A -> result B) (xs : list A) (ys : list B) :
  collect f xs = Ok ys <-> Forall2 (fun x y => f x = Ok y) xs ys.
Proof.
  revert ys. induction xs as [ | x xs IH]; intros ys; cbn [collect].
  - split; [ intros [= <-]; constructor | intros H; now inversion H ].
  - destruct (f x) as [y | e] eqn:Hx; cbn [bind].
    + destruct (collect f xs) as [ys' | e] eqn:Hxs; cbn [bind].
      * split.
        -- intros [= <-]. constructor; [ assumption | now apply IH ].
        -- intros H. inversion H as [ | x0 y0 xs0 ys0 Hy Hys]; subst.
           apply IH in Hys. congruence.
      * split; [ discriminate | ].
        intros H. inversion H as [ | x0 y0 xs0 ys0 Hy Hys]; subst.
        apply IH in Hys. discriminate.
    + split; [ discriminate | ].
      intros H. inversion H as [ | x0 y0 xs0 ys0 Hy Hys]; subst. congruence.
Qed.

(** The loop stops at the first element that raises. *)
Lemma collect_first_raise {A B : Type} (f : A -> result B) (pre post : list A)
  (x : A) (e : exn) (ys : list B) :
  Forall2 (fun x y => f x = Ok y) pre ys -> f x = Raise e ->
  collect f (pre ++ x :: post) = Raise e.
Proof.
  intros Hpre Hx. induction Hpre as [ | x0 y0 xs0 ys0 Hy Hys IH]; cbn [List.app collect].
  - rewrite Hx. reflexivity.
  - rewrite Hy, IH. reflexivity.
Qed.

Lemma collect_raises {A B : Type} (f : A -> result B) (pre post : list A)
  (x : A) (e : exn) :
  f x = Raise e -> exists e', collect f (pre ++ x :: post) = Raise e'.
Proof.
  intros Hx. induction pre as [ | x0 pre [e' IH]]; cbn [List.app collect].
  - rewrite Hx. cbn [bind]. eauto.
  - destruct (f x0); cbn [bind]; [ rewrite IH; cbn [bind] | ]; eauto.
Qed.

Lemma all_chars_cons (p : ascii -> bool) (c : ascii) (s : string) :
  all_chars p (String c s) = p c && all_chars p s.
Proof. reflexivity. Qed.

(** What [drop_space] returns is an end of its argument. *)
Lemma all_chars_drop_space (p : ascii -> bool) (fwd : bool) (s : string) :
  all_chars p s = true -> all_chars p (drop_space fwd s) = true.
Proof.
  remember (String.length s) as n eqn:Hn. revert s Hn.
  induction n as [n IH] using lt_wf_ind. intros s Hn Hs.
  destruct s as [ | c1 s1]; [ reflexivity | ]. cbn [drop_space].
  rewrite all_chars_cons in Hs. apply andb_true_iff in Hs as [H1 Hs1].
  cbn [String.length] in Hn.
  destruct (space1 c1).
  { apply (IH (String.length s1)); [ lia | reflexivity | assumption ]. }
  destruct s1 as [ | c2 s2]; [ cbn; now rewrite H1 | ].
  rewrite all_chars_cons in Hs1. apply andb_true_iff in Hs1 as [H2 Hs2].
  cbn [String.length] in Hn.
  destruct (if fwd then space2 c1 c2 else space2 c2 c1).
  { apply (IH (String.length s2)); [ lia | reflexivity | assumption ]. }
  destruct s2 as [ | c3 s3]; [ rewrite !all_chars_cons, H1, H2; reflexivity | ].
  rewrite all_chars_cons in Hs2. apply andb_true_iff in Hs2 as [H3 Hs3].
  cbn [String.length] in Hn.
  destruct (if fwd then space3 c1 c2 c3 else space3 c3 c2 c1).
  { apply (IH (String.length s3)); [ lia | reflexivity | assumption ]. }
  now rewrite !all_chars_cons, H1, H2, H3, Hs3.
Qed.

Lemma all_chars_strip (p : ascii -> bool) (s : string) :
  all_chars p s = true -> all_chars p (strip s) = true.
Proof.
  intros Hs. unfold strip. rewrite all_chars_rev. apply all_chars_drop_space.
  rewrite all_chars_rev. now apply all_chars_drop_space.
Qed.

Lemma all_chars_join (p : ascii -> bool) (sep : string) (parts : list string) :
  all_chars p sep = true -> Forall (fun s => all_chars p s = true) parts ->
  all_chars p (join sep parts) = true.
Proof.
  intros Hsep Hall. unfold join.
  induction Hall as [ | s rest Hs Hrest IH]; [ reflexivity | ].
  destruct rest as [ | s' rest]; [ assumption | ].
  change (concat sep (s :: s' :: rest)) with (s ++ sep ++ concat sep (s' :: rest)).
  now rewrite !all_chars_append, Hs, Hsep, IH.
Qed.

Lemma startswith_other (c : ascii) (s : string) :
  Ascii.eqb c "[" = false -> startswith (String c s) "[" = false.
Proof.
  intros Hc. unfold startswith. cbn [prefix].
  destruct (ascii_dec "[" c) as [<- | Hne]; [ | reflexivity ].
  now rewrite Ascii.eqb_refl in Hc.
Qed.

Lemma append_assoc' (a b c : string) : (a ++ b) ++ c = a ++ b ++ c.
Proof. induction a as [ | x a IH]; cbn; [ reflexivity | now rewrite IH ]. Qed.

Lemma rev_append (a b : string) : rev (a ++ b) = rev b ++ rev a.
Proof.
  unfold rev. rewrite chars_append, rev_app_distr.
  generalize (List.rev (list_ascii_of_string b)) as l.
  generalize (List.rev (list_ascii_of_string a)) as l'.
  intros l' l. induction l as [ | x l IH]; cbn; [ reflexivity | now rewrite IH ].
Qed.

Lemma drop_space_pad (pad s : string) :
  all_chars space1 pad = true -> drop_space true (pad ++ s) = drop_space true s.
Proof.
  induction pad as [ | c pad IH]; [ reflexivity | ].
  rewrite all_chars_cons, andb_true_iff. intros [Hc Hpad].
  cbn [append drop_space]. rewrite Hc. now apply IH.
Qed.

(** White space in front does not survive stripping. *)
Lemma strip_pad (pad s : string) :
  all_chars space1 pad = true -> strip (pad ++ s) = strip s.
Proof. intros H. unfold strip. now rewrite drop_space_pad. Qed.

Lemma strip_solid_ends (s : string) : solid_ends s -> strip s = s.
Proof.
  intros [(c & r & -> & Hc) (c' & r' & Hrev & Hc')]. unfold strip.
  rewrite drop_space_solid by assumption.
  rewrite Hrev, drop_space_solid by assumption.
  rewrite <- Hrev. apply rev_involutive.
Qed.

Lemma solid_ends_append (a m b : string) :
  solid_ends a -> solid_ends b -> solid_ends (a ++ m ++ b).
Proof.
  intros [(c & r & -> & Hc) _] [_ (c' & r' & Hrev & Hc')]. split.
  - exists c, (r ++ m ++ b). auto.
  - exists c', ((r' ++ rev m) ++ rev (String c r)).
    rewrite !rev_append, Hrev. auto.
Qed.

Lemma solid_ends_all (s : string) :
  s <> EmptyString -> all_chars solid s = true -> solid_ends s.
Proof.
  intros Hne Hs. split.
  - destruct s as [ | c r]; [ congruence | ]. exists c, r.
    rewrite all_chars_cons in Hs. apply andb_true_iff in Hs as [Hc _]. auto.
  - rewrite <- all_chars_rev in Hs. destruct (rev s) as [ | c r] eqn:Hr.
    + apply (f_equal rev) in Hr. rewrite rev_involutive in Hr. now subst.
    + exists c, r. rewrite all_chars_cons in Hs. apply andb_true_iff in Hs as [Hc _]. auto.
Qed.

Lemma solid_ends_join (sep : string) (parts : list string) :
  parts <> [] -> Forall solid_ends parts -> solid_ends (join sep parts).
Proof.
  unfold join. induction parts as [ | p rest IH]; [ congruence | ]. intros _ Hall.
  inversion Hall as [ | p' rest' Hp Hrest]; subst.
  destruct rest as [ | q rest]; [ assumption | ].
  change (concat sep (p :: q :: rest)) with (p ++ sep ++ concat sep (q :: rest)).
  apply solid_ends_append; [ assumption | ]. apply IH; [ discriminate | assumption ].
Qed.

Lemma split_prepend (sep : ascii) (pad s : string) :
  free_of sep pad = true ->
  split sep (pad ++ s)
  = match split sep s with
    | first :: others => (pad ++ first) :: others
    | [] => [pad]
    end.
Proof.
  induction pad as [ | c pad IH].
  - intros _. cbn [append]. destruct (split sep s) eqn:Hs; [ | reflexivity ].
    destruct s; cbn in Hs; [ discriminate | ].
    destruct (Ascii.eqb a sep); [ discriminate | ].
    destruct (split sep s); discriminate.
  - rewrite free_of_cons, andb_true_iff, negb_true_iff. intros [Hc Hpad].
    cbn [append split]. rewrite Hc, IH by assumption.
    destruct (split sep s); reflexivity.
Qed.

(** Splitting at the commas a text joined with a comma and padding. *)
Lemma split_join_pad (sep : ascii) (pad : string) (rest : list string) :
  forall p,
    free_of sep pad = true -> Forall (fun s => free_of sep s = true) (p :: rest) ->
    split sep (join (String sep pad) (p :: rest)) = p :: map (append pad) rest.
Proof.
  unfold join. induction rest as [ | q rest IH]; intros p Hpad Hall;
    inversion Hall as [ | p' rest' Hp Hrest]; subst.
  - cbn. now apply split_free.
  - change (concat (String sep pad) (p :: q :: rest))
      with (p ++ String sep (pad ++ concat (String sep pad) (q :: rest))).
    rewrite split_append, split_prepend, IH by assumption. reflexivity.
Qed.

End StrFacts.

(** ** The parser *)

Module ParseFacts.

Import Tiered Spec StrFacts.
Open Scope string_scope.

Section Parsing.

Variable float_of_str : string -> result float.
Variable json_loads : string -> result json.

Local Abbreviation tier_of_part := (Tiered.tier_of_part float_of_str).
Local Abbreviation tier_of_json := (Tiered.tier_of_json float_of_str).
Local Abbreviation parse_tiers := (Tiered.parse_tiers float_of_str json_loads).
Local Abbreviation entry_denotes := (Spec.entry_denotes float_of_str).

Lemma unlimited_token_spec (s : string) :
  unlimited_token s = true <-> s = "*" \/ s = "None" \/ s = "null".
Proof.
  unfold unlimited_token. rewrite !orb_true_iff, !String.eqb_eq. tauto.
Qed.

Lemma tier_of_part_ok (part : string) (t : Tier) :
  tier_of_part part = Ok t <-> entry_denotes part t.
Proof.
  unfold Tiered.tier_of_part, Spec.entry_denotes. split.
  - destruct (split "@" (strip part)) as [ | size_s [ | rate_s [ | x rest]]];
      try discriminate.
    intros H. exists size_s, rate_s. split; [ reflexivity | ].
    destruct (unlimited_token (strip size_s)); cbn [bind] in H.
    + destruct (float_of_str rate_s) as [r | e]; [ | discriminate ].
      injection H as <-. auto.
    + destruct (float_of_str size_s) as [x | e]; [ | discriminate ]. cbn [bind] in H.
      destruct (float_of_str rate_s) as [r | e]; [ | discriminate ].
      injection H as <-. eauto.
  - intros (size_s & rate_s & -> & Hr & Hs). destruct t as [size rate]. cbn [fst snd] in *.
    destruct (unlimited_token (strip size_s)).
    + subst size. cbn [bind]. now rewrite Hr.
    + destruct Hs as (x & -> & ->). cbn [bind]. now rewrite Hr.
Qed.

(** An entry without the separator cannot be unpacked into two. *)
Lemma tier_of_part_no_at (part : string) :
  free_of "@" part = true ->
  tier_of_part part
  = Raise (ValueError "not enough values to unpack (expected 2, got 1)").
Proof.
  intros H. unfold Tiered.tier_of_part.
  rewrite split_free by (now apply all_chars_strip). reflexivity.
Qed.

Lemma parse_shorthand (text : string) :
  text <> EmptyString -> startswith (strip text) "[" = false ->
  parse_tiers text = collect tier_of_part (split "," (strip text)).
Proof.
  intros Hne Hsw. unfold Tiered.parse_tiers. rewrite Hsw.
  destruct text; [ congruence | reflexivity ].
Qed.

(** C6. In its shorthand form (a text that is not empty and, stripped, does
    not start with a bracket) [parse_tiers] returns one tier for each of
    the parts between commas, in their order: a stripped part must split at
    [@] into a size and a rate; the size is unlimited when, stripped, it
    is [*], [None] or [null] as typed, and else what [float] makes of it;
    the rate is what [float] makes of it.  A part without [@] makes the
    call raise, with the unpacking [ValueError] when the parts before it
    are well formed.  And [parse_tiers("100@0.2, *@0.3")] is
    [[(100.0, 0.2), (None, 0.3)]]. *)
Theorem shorthand_form (text : string) :
  text <> EmptyString -> startswith (strip text) "[" = false ->
  (forall tiers,
     parse_tiers text = Ok tiers
     <-> Forall2 entry_denotes (split "," (strip text)) tiers)
  /\ (forall pre part post,
        split "," (strip text) = (pre ++ part :: post)%list ->
        free_of "@" part = true ->
        (exists e, parse_tiers text = Raise e)
        /\ (forall ts, Forall2 entry_denotes pre ts ->
            parse_tiers text
            = Raise (ValueError "not enough values to unpack (expected 2, got 1)")))
  /\ (forall s, unlimited_token s = true <-> s = "*" \/ s = "None" \/ s = "null")
  /\ Tiered.parse_tiers Literal.float_of_str json_loads "100@0.2, *@0.3"
     = Ok [(Some 100%float, 0.2%float); (None, 0.3%float)].
Proof.
  intros Hne Hsw. rewrite (parse_shorthand _ Hne Hsw).
  split; [ | split; [ | split ] ].
  - intros tiers. rewrite collect_ok. split; intros H.
    + eapply Forall2_impl; [ | exact H ]. intros p t. apply tier_of_part_ok.
    + eapply Forall2_impl; [ | exact H ]. intros p t. apply tier_of_part_ok.
  - intros pre part post -> Hfree. pose proof (tier_of_part_no_at _ Hfree) as Hp. split.
    + exact (collect_raises _ _ _ _ _ Hp).
    + intros ts Hts. apply (collect_first_raise _ _ _ _ _ ts); [ | assumption ].
      eapply Forall2_impl; [ | exact Hts ]. intros p t. apply tier_of_part_ok.
  - apply unlimited_token_spec.
  - vm_compute. reflexivity.
Qed.

Lemma literal_solid (s : string) : literal s -> all_chars solid s = true.
Proof.
  intros [_ H]. eapply all_chars_weaken; [ | exact H ]. apply literal_char_solid.
Qed.

Lemma literal_free (sep : ascii) (s : string) :
  literal_char sep = false -> literal s -> free_of sep s = true.
Proof.
  intros Hsep [_ H]. unfold free_of. eapply all_chars_weaken; [ | exact H ].
  intros c Hc. apply negb_true_iff. destruct (Ascii.eqb_spec c sep); [ | reflexivity ].
  congruence.
Qed.

(** The text of one entry, [size@rate]. *)
Lemma entry_text_denotes (e : string * string) (t : Tier) :
  shorthand_denotes float_of_str e t ->
  tier_of_part (fst e ++ "@" ++ snd e) = Ok t.
Proof.
  intros H. apply tier_of_part_ok. unfold Spec.entry_denotes.
  assert (Hshape : forall size_s rate_s, literal size_s -> literal rate_s ->
            split "@" (strip (size_s ++ "@" ++ rate_s)) = [size_s; rate_s]
            /\ strip size_s = size_s).
  { intros size_s rate_s Hs Hr.
    rewrite strip_solid
      by (rewrite !all_chars_append, (literal_solid _ Hs), (literal_solid _ Hr); reflexivity).
    rewrite (strip_solid size_s) by now apply literal_solid.
    split; [ | reflexivity ]. cbn [append].
    rewrite split_append by (now apply literal_free).
    rewrite split_free by (now apply literal_free). reflexivity. }
  destruct H as [size_s rate_s r Hs Hr Htok Hrate | size_s rate_s x r Hs Hr Htok Hsize Hrate];
    cbn [fst snd]; destruct (Hshape _ _ Hs Hr) as [Hsplit Hstrip];
    exists size_s, rate_s; rewrite Hstrip, Htok; eauto.
Qed.

Lemma json_pair_denotes (pair : json) (t : Tier) :
  json_denotes float_of_str pair t -> tier_of_json pair = Ok t.
Proof.
  intros [v r Hr | u v x r Hu Hx Hr]; unfold Tiered.tier_of_json; cbn [unpack2 iterate bind].
  - now rewrite Hr.
  - destruct u; try congruence; rewrite Hx; cbn [bind]; now rewrite Hr.
Qed.

Lemma tier_of_part_pad (pad part : string) :
  all_chars space1 pad = true -> tier_of_part (pad ++ part) = tier_of_part part.
Proof. intros H. unfold Tiered.tier_of_part. now rewrite strip_pad. Qed.

Lemma space_free_of_comma (pad : string) :
  all_chars space1 pad = true -> free_of "," pad = true.
Proof.
  intros H. unfold free_of. eapply all_chars_weaken; [ | exact H ].
  intros c Hc. destruct (Ascii.eqb_spec c ","); [ subst; discriminate | reflexivity ].
Qed.

(** The shorthand text of entries that stand for tiers parses to them. *)
Lemma parse_shorthand_text (pad : string) (entries : list (string * string))
  (tiers : list Tier) :
  all_chars space1 pad = true ->
  tiers <> [] -> Forall2 (shorthand_denotes float_of_str) entries tiers ->
  parse_tiers (shorthand_text pad entries) = Ok tiers.
Proof.
  intros Hpad Hne Hall. unfold shorthand_text.
  destruct Hall as [ | e t es ts He Hes]; [ congruence | ]. clear Hne.
  set (render := fun e : string * string => fst e ++ "@" ++ snd e).
  assert (Hlit : forall e t, shorthand_denotes float_of_str e t ->
                   literal (fst e) /\ literal (snd e)).
  { intros e0 t0 H0. destruct H0; cbn [fst snd]; auto. }
  assert (Hrender : forall e t, shorthand_denotes float_of_str e t ->
                      solid_ends (render e) /\ free_of "," (render e) = true).
  { intros e0 t0 H0. destruct (Hlit _ _ H0) as [Hs Hr]. unfold render. split.
    - apply solid_ends_all.
      + destruct Hs as [Hs _]. destruct (fst e0); [ congruence | discriminate ].
      + rewrite !all_chars_append, (literal_solid _ Hs), (literal_solid _ Hr). reflexivity.
    - unfold free_of. rewrite !all_chars_append.
      fold (free_of "," (fst e0)). fold (free_of "," (snd e0)).
      rewrite !literal_free by (assumption || reflexivity). reflexivity. }
  assert (Hparts : Forall (fun p => solid_ends p /\ free_of "," p = true)
                     (map render (e :: es))).
  { apply Forall_map. constructor; [ now apply (Hrender e t) | ].
    clear - Hes Hrender. induction Hes as [ | e' t' es' ts' He' Hes' IH]; constructor; eauto. }
  assert (Hstrip : strip (join (String "," pad) (map render (e :: es)))
                   = join (String "," pad) (map render (e :: es))).
  { apply strip_solid_ends, solid_ends_join; [ discriminate | ].
    eapply Forall_impl; [ | exact Hparts ]. now intros p [Hp _]. }
  assert (Hfirst : exists c rest,
             join (String "," pad) (map render (e :: es)) = String c rest
             /\ Ascii.eqb c "[" = false).
  { destruct (Hlit _ _ He) as [[Hs1 Hs2] _].
    unfold join. cbn [map]. unfold render at 1.
    destruct (fst e) as [ | c s1]; [ congruence | ].
    rewrite all_chars_cons in Hs2. apply andb_true_iff in Hs2 as [Hc _].
    unfold literal_char in Hc. rewrite !andb_true_iff, !negb_true_iff in Hc.
    exists c. destruct (map render es); cbn [concat append]; eexists;
      (split; [ reflexivity | tauto ]). }
  destruct Hfirst as (c & rest & Htext & Hc).
  rewrite parse_shorthand.
  - rewrite Hstrip. cbn [map].
    rewrite split_join_pad;
      [ | now apply space_free_of_comma
        | eapply Forall_impl; [ | exact Hparts ]; now intros p [_ Hp] ].
    apply collect_ok. constructor; [ now apply entry_text_denotes | ].
    clear - Hes Hpad. induction Hes as [ | e' t' es' ts' He' Hes' IH]; cbn [map].
    + constructor.
    + constructor; [ | assumption ].
      rewrite tier_of_part_pad by assumption. now apply entry_text_denotes.
  - rewrite Htext. discriminate.
  - rewrite Hstrip, Htext. now apply startswith_other.
Qed.

(** C7. Take a JSON text that [json.loads] decodes to an array of pairs
    standing for some tiers, and a shorthand text whose parts between
    commas stand for the same tiers.  [parse_tiers] returns the same list
    for the two texts: those tiers, in their order, with the same sizes,
    the same unlimited tiers and the same rates.  The text
    [size@rate,size@rate,...] written with literals of the tiers, when
    there is at least one, is such a shorthand text, with or without
    blanks after its commas. *)
Theorem both_forms_agree :
  (forall (tiers : list Tier) (jtext stext : string) (pairs : list json),
     jtext <> EmptyString -> startswith (strip jtext) "[" = true ->
     json_loads (strip jtext) = Ok (JArr pairs) ->
     Forall2 (json_denotes float_of_str) pairs tiers ->
     stext <> EmptyString -> startswith (strip stext) "[" = false ->
     Forall2 entry_denotes (split "," (strip stext)) tiers ->
     parse_tiers jtext = Ok tiers
     /\ parse_tiers stext = Ok tiers
     /\ parse_tiers jtext = parse_tiers stext)
  /\ (forall (tiers : list Tier) (pad : string) (entries : list (string * string)),
        all_chars space1 pad = true ->
        tiers <> [] ->
        Forall2 (shorthand_denotes float_of_str) entries tiers ->
        parse_tiers (shorthand_text pad entries) = Ok tiers).
Proof.
  split; [ | intros tiers pad entries; apply parse_shorthand_text ].
  intros tiers jtext stext pairs Hj Hsw Hloads Hjs Hs Hsw' Hparts.
  assert (Hjson : parse_tiers jtext = Ok tiers).
  { unfold Tiered.parse_tiers. rewrite Hsw, Hloads. cbn [bind iterate].
    destruct jtext; [ congruence | ]. apply collect_ok.
    eapply Forall2_impl; [ | exact Hjs ]. intros p t. apply json_pair_denotes. }
  assert (Hshort : parse_tiers stext = Ok tiers).
  { rewrite parse_shorthand by assumption. apply collect_ok.
    eapply Forall2_impl; [ | exact Hparts ]. intros p t. apply tier_of_part_ok. }
  split; [ assumption | ]. split; [ assumption | congruence ].
Qed.

End Parsing.

Lemma shorthand_form_witness :
  Forall2 (Spec.entry_denotes Literal.float_of_str)
    (split "," (strip "100@0.2, *@0.3"))
    [(Some 100%float, 0.2%float); (None, 0.3%float)].
Proof.
  apply (proj1 (proj1 (shorthand_form Literal.float_of_str JsonText.loads
                         "100@0.2, *@0.3" ltac:(discriminate) eq_refl) _)).
  vm_compute. reflexivity.
Defined.

Lemma both_forms_agree_witness :
  (Tiered.parse_tiers Literal.float_of_str JsonText.loads "[[100, 0.2], [null, 0.3]]"
   = Ok [(Some 100%float, 0.2%float); (None, 0.3%float)]
   /\ Tiered.parse_tiers Literal.float_of_str JsonText.loads "100@0.2, *@0.3"
      = Ok [(Some 100%float, 0.2%float); (None, 0.3%float)]
   /\ Tiered.parse_tiers Literal.float_of_str JsonText.loads "[[100, 0.2], [null, 0.3]]"
      = Tiered.parse_tiers Literal.float_of_str JsonText.loads "100@0.2, *@0.3")
  /\ Tiered.parse_tiers Literal.float_of_str JsonText.loads
       (Spec.shorthand_text " " [("100", "0.2"); ("*", "0.3")])
     = Ok [(Some 100%float, 0.2%float); (None, 0.3%float)].
Proof.
  split.
  - apply (proj1 (both_forms_agree Literal.float_of_str JsonText.loads)
             [(Some 100%float, 0.2%float); (None, 0.3%float)]
             "[[100, 0.2], [null, 0.3]]" "100@0.2, *@0.3"
             [JArr [JInt 100; JFloat 0.2]; JArr [JNull; JFloat 0.3]]).
    + discriminate.
    + reflexivity.
    + vm_compute. reflexivity.
    + constructor; [ | constructor; [ | constructor ] ].
      * apply jd_size; [ discriminate | vm_compute; reflexivity | reflexivity ].
      * apply jd_unlimited. reflexivity.
    + discriminate.
    + reflexivity.
    + change (split "," (strip "100@0.2, *@0.3")) with ["100@0.2"; " *@0.3"].
      constructor; [ | constructor; [ | constructor ] ].
      * exists "100", "0.2". split; [ reflexivity | ].
        split; [ vm_compute; reflexivity | ]. exists 100%float.
        split; [ vm_compute | ]; reflexivity.
      * exists "*", "0.3". split; [ reflexivity | ].
        split; [ vm_compute; reflexivity | reflexivity ].
  - apply (proj2 (both_forms_agree Literal.float_of_str JsonText.loads)
             [(Some 100%float, 0.2%float); (None, 0.3%float)] " "
             [("100", "0.2"); ("*", "0.3")]).
    + reflexivity.
    + discriminate.
    + constructor; [ | constructor; [ | constructor ] ].
      * apply sd_size; try (split; [ discriminate | reflexivity ]);
          [ reflexivity | vm_compute; reflexivity | vm_compute; reflexivity ].
      * apply sd_unlimited; try (split; [ discriminate | reflexivity ]);
          [ reflexivity | vm_compute; reflexivity ].
Defined.

End ParseFacts.

(** ** The scenarios of the tests *)

Module Scenarios.

Import Tiered Spec FormatFacts.
Open Scope string_scope.

(** X1. 350 kWh over the tiers [(100, 0.20), (200, 0.30), (None, 0.40)] with
    a fixed fee of 10: the entries take 100, 200 and 50 kWh, the energy
    cost is 100 and the total 110. *)
Theorem three_tiers_bill :
  calculate_tiered_bill 350%float
    [(Some 100, 0.20); (Some 200, 0.30); (None, 0.40)]%float 10%float
  = Ok {| breakdown :=
            Some (map as_dict
                    [ {| tier_index := 1; kwh := 100; rate := 0.20; cost := 20 |};
                      {| tier_index := 2; kwh := 200; rate := 0.30; cost := 60 |};
                      {| tier_index := 3; kwh := 50; rate := 0.40; cost := 20 |} ]%float);
          energy_cost := Some 100%float;
          fixed_fee := Some 10%float;
          total := Some 110%float |}.
Proof. vm_compute. reflexivity. Qed.





End Scenarios.
